(** * plexsearch: a shallow embedding of [plexsearch/core.py]

    The terminal client is modelled as state-passing code over an explicit
    world: every call to the console, to the live display, to standard
    error and to the remote search leaves an event, exceptions are
    outcomes, and the conversation context is threaded through the
    interactive loop.  Every string handed to the console is console
    markup: it is parsed before anything is shown, and parsing can fail. *)

From Stdlib Require Import String Ascii List Bool Arith NArith Lia DecimalString.
Import ListNotations.
Open Scope string_scope.

Set Implicit Arguments.

(** ** Python strings *)

(** A [str] is modelled as a [string] whose characters are the code points
    below 256. *)
Module PyStr.

Definition chr (n : N) : string := String (ascii_of_N n) EmptyString.

Definition nl : string := chr 10.
Definition dquote : string := chr 34.
Definition backslash : string := chr 92.

Definition code (c : ascii) : N := N_of_ascii c.

Definition between (lo hi : N) (c : ascii) : bool :=
  (lo <=? code c)%N && (code c <=? hi)%N.

(** [str.isspace] on one character: TAB..CR, FS..US, SPACE, NEL, NBSP. *)
Definition isspace (c : ascii) : bool :=
  between 9 13 c || between 28 32 c || (code c =? 133)%N || (code c =? 160)%N.

(** [str.lower] on one character: A..Z and the Latin-1 capitals. *)
Definition lower_char (c : ascii) : ascii :=
  if between 65 90 c || (between 192 222 c && negb (code c =? 215)%N)
  then ascii_of_N (code c + 32) else c.

(** [str.upper] on one character, as far as [capitalize] needs it: a..z and
    the Latin-1 small letters with a capital below 256. *)
Definition upper_char (c : ascii) : ascii :=
  if between 97 122 c || (between 224 254 c && negb (code c =? 247)%N)
  then ascii_of_N (code c - 32) else c.

Fixpoint lower (s : string) : string :=
  match s with
  | EmptyString => EmptyString
  | String c s' => String (lower_char c) (lower s')
  end.

Fixpoint lstrip (s : string) : string :=
  match s with
  | EmptyString => EmptyString
  | String c s' => if isspace c then lstrip s' else s
  end.

Fixpoint rstrip (s : string) : string :=
  match s with
  | EmptyString => EmptyString
  | String c s' =>
      match rstrip s' with
      | EmptyString => if isspace c then EmptyString else String c EmptyString
      | r => String c r
      end
  end.

Definition strip (s : string) : string := rstrip (lstrip s).

(** [str.capitalize]: first character upper-cased, the rest lower-cased. *)
Definition capitalize (s : string) : string :=
  match s with
  | EmptyString => EmptyString
  | String c s' => String (upper_char c) (lower s')
  end.

(** ["\n" * n] *)
Fixpoint repeat_str (s : string) (n : nat) : string :=
  match n with
  | O => EmptyString
  | S n' => s ++ repeat_str s n'
  end.

(** ["".join(parts)] *)
Definition join (parts : list string) : string :=
  fold_right append EmptyString parts.

(** [sep.join(parts)] *)
Fixpoint join_with (sep : string) (parts : list string) : string :=
  match parts with
  | [] => EmptyString
  | [p] => p
  | p :: ps => p ++ sep ++ join_with sep ps
  end.

Definition is_empty (s : string) : bool :=
  match s with EmptyString => true | _ => false end.

End PyStr.

(** ** Data model *)

Inductive Role := System | User | Assistant.

Definition role_name (r : Role) : string :=
  match r with
  | System => "system"
  | User => "user"
  | Assistant => "assistant"
  end.

(** A turn is the dict [{"role": ..., "content": ...}]. *)
Record Turn := mkTurn { role : Role; content : string }.

Definition Context := list Turn.

Definition user_turn (text : string) : Turn := mkTurn User text.
Definition assistant_turn (text : string) : Turn := mkTurn Assistant text.

(** The parsed command line, as [core.py] reads it. *)
Record Args := mkArgs {
  api_key : string;
  model : string;
  citations : bool;
  no_stream : bool;
  query : list string
}.

Record Payload := mkPayload {
  p_model : string;
  p_stream : bool;
  p_show_citations : bool;
  p_messages : option Context
}.

(** The keyword arguments of one [perform_search] call. *)
Record SearchCall := mkSearchCall {
  sc_query : string;
  sc_api_key : string;
  sc_model : string;
  sc_stream : bool;
  sc_show_citations : bool;
  sc_context : option Context
}.

(** ** Exceptions *)

Inductive Exn :=
| NameError (name : string)
| ImportError (name from_module : string)
| EOFError
| TransportError (msg : string)
| MarkupError (msg : string)
| SystemExit (status : nat)
| KeyboardInterrupt.

(** [isinstance(e, Exception)]: [SystemExit] and [KeyboardInterrupt] derive
    from [BaseException] only, so [except Exception] lets them through. *)
Definition is_Exception (e : Exn) : bool :=
  match e with
  | SystemExit _ | KeyboardInterrupt => false
  | _ => true
  end.

(** [str(e)] *)
Definition exn_str (e : Exn) : string :=
  match e with
  | NameError n => "name '" ++ n ++ "' is not defined"
  | ImportError n m => "cannot import name '" ++ n ++ "' from '" ++ m ++ "'"
  | EOFError => "EOF when reading a line"
  | TransportError m => m
  | MarkupError m => m
  | SystemExit _ => EmptyString
  | KeyboardInterrupt => EmptyString
  end.

Inductive Outcome (A : Type) :=
| Return (a : A)
| Raise (e : Exn).

Arguments Return {A} a.
Arguments Raise {A} e.

(** ** Console markup *)

(** [rich] takes every string handed to [Console.print], to
    [Console.input] and to [Live.update] for console markup and parses it
    ([rich/markup.py]) before anything is shown.  Two things the parser calls are left open:
    [Style.normalize], which brings a style name to its normal form, and
    the evaluation of the parameters of an [@] tag, which either fails
    with a message or does not. *)
Record Console := mkConsole {
  normalize : string -> string;
  meta_error : string -> option string
}.

Module Markup.

Import PyStr.

(** [str(position)] *)
Definition decimal (n : nat) : string := NilZero.string_of_uint (Nat.to_uint n).

(** The first character of a tag, [[a-z#/@]]. *)
Definition tag_start (c : ascii) : bool :=
  between 97 122 c || Ascii.eqb c "#" || Ascii.eqb c "/" || Ascii.eqb c "@".

(** [[^[]*?]] and the closing bracket of [RE_TAGS]: the characters up to
    the first closing bracket, unless an opening bracket or the end of the
    string comes before it. *)
Fixpoint tag_body (s : string) : option string :=
  match s with
  | EmptyString => None
  | String c rest =>
      if Ascii.eqb c "]" then Some EmptyString
      else if Ascii.eqb c "[" then None
      else option_map (String c) (tag_body rest)
  end.

(** The text of the tag whose opening bracket has just been read, if what
    follows the bracket makes one. *)
Definition tag_at (s : string) : option string :=
  match s with
  | String c _ => if tag_start c then tag_body s else None
  | EmptyString => None
  end.

Record Tag := mkTag { tag_name : string; tag_parameters : option string }.

(** [tag_text.partition("=")]: the name, and the parameters if there is an
    equals sign. *)
Fixpoint partition_equals (tag_text : string) : Tag :=
  match tag_text with
  | EmptyString => mkTag EmptyString None
  | String c rest =>
      if Ascii.eqb c "=" then mkTag EmptyString (Some rest)
      else let tag := partition_equals rest in
           mkTag (String c (tag_name tag)) (tag_parameters tag)
  end.

(** [Tag.markup] *)
Definition markup (tag : Tag) : string :=
  match tag_parameters tag with
  | None => "[" ++ tag_name tag ++ "]"
  | Some parameters => "[" ++ tag_name tag ++ "=" ++ parameters ++ "]"
  end.

Definition starts_with (c : ascii) (s : string) : bool :=
  match s with
  | String c' _ => Ascii.eqb c' c
  | EmptyString => false
  end.

(** [s[1:]] *)
Definition tail (s : string) : string :=
  match s with
  | String _ rest => rest
  | EmptyString => EmptyString
  end.

(** [pop_style]: the open tag nearest to the top of the stack whose name is
    [style_name] is taken out of it. *)
Fixpoint pop_style (style_name : string) (stack : list Tag) : option (Tag * list Tag) :=
  match stack with
  | [] => None
  | tag :: below =>
      if String.eqb (tag_name tag) style_name then Some (tag, below)
      else match pop_style style_name below with
           | Some (found, below') => Some (found, tag :: below')
           | None => None
           end
  end.

(** A closing tag at [position], the tags of [stack] being open, the last
    one opened first: the stack it leaves, or the message of the
    [MarkupError] it raises. *)
Definition close (console : Console) (tag : Tag) (position : nat) (stack : list Tag)
    : string + list Tag :=
  let style_name := strip (tail (tag_name tag)) in
  let popped :=
    if is_empty style_name then
      match stack with
      | open_tag :: below => inr (open_tag, below)
      | [] => inl ("closing tag '[/]' at position " ++ decimal position
                     ++ " has nothing to close")
      end
    else
      match pop_style (normalize console style_name) stack with
      | Some found => inr found
      | None => inl ("closing tag '" ++ markup tag ++ "' at position " ++ decimal position
                       ++ " doesn't match any open tag")
      end in
  match popped with
  | inl message => inl message
  | inr (open_tag, below) =>
      if starts_with "@" (tag_name open_tag) then
        match tag_parameters open_tag with
        | Some parameters =>
            if is_empty parameters then inr below
            else match meta_error console parameters with
                 | Some message => inl message
                 | None => inr below
                 end
        | None => inr below
        end
      else inr below
  end.

(** [render] over the matches of [RE_TAGS], read from left to right.
    [position] is the index of the first character of [s] in the whole
    string, [run] the number of backslashes just before it, and [skip] the
    number of characters of [s] that belong to the tag just read.  A tag
    after an odd number of backslashes is escaped and is text.  The result
    is the message of the [MarkupError], if one is raised. *)
Fixpoint scan (console : Console) (s : string) (skip position run : nat)
    (stack : list Tag) : option string :=
  match s with
  | EmptyString => None
  | String c rest =>
      match skip with
      | S skip' => scan console rest skip' (S position) 0 stack
      | O =>
          if Ascii.eqb c "\" then scan console rest 0 (S position) (S run) stack
          else if Ascii.eqb c "[" then
            match tag_at rest with
            | Some tag_text =>
                let after_tag := S (String.length tag_text) in
                if Nat.even run then
                  let tag := partition_equals tag_text in
                  if starts_with "/" (tag_name tag) then
                    match close console tag position stack with
                    | inl message => Some message
                    | inr stack' => scan console rest after_tag (S position) 0 stack'
                    end
                  else
                    scan console rest after_tag (S position) 0
                         (mkTag (normalize console (tag_name tag)) (tag_parameters tag) :: stack)
                else scan console rest after_tag (S position) 0 stack
            | None => scan console rest 0 (S position) 0 stack
            end
          else scan console rest 0 (S position) 0 stack
      end
  end.

(** The message of the [MarkupError] that rendering [markup] raises, or
    [None] when it renders. *)
Definition render_error (console : Console) (markup : string) : option string :=
  scan console markup 0 0 0 [].

(** No opening bracket in [s]. *)
Fixpoint plain (s : string) : bool :=
  match s with
  | EmptyString => true
  | String c rest => negb (Ascii.eqb c "[") && plain rest
  end.

End Markup.

(** ** The world and its events *)

(** What a [Live] display is asked to show: the text rendered from a
    markup string, its tags turned into styles and its emoji codes
    replaced, or a spinner. *)
Inductive Renderable :=
| Rendered (markup : string)
| Spinner (name text : string).

(** What the program does to the outside, in order.  A print, a prompt and
    a display update are recorded with the markup they were given, once it
    has been parsed; what the terminal shows is its rendering. *)
Inductive Event :=
| ConsolePrint (s : string)
| ConsoleClear
| ConsolePrompt (prompt : string)
| StdinPrompt (prompt : string)
| StderrPrint (s : string)
| LiveStart (r : Renderable) (transient : bool)
| LiveUpdate (r : Renderable)
| LiveStop
| SearchRequest (call : SearchCall)
| SigintReceived.

(** What the process does on SIGINT. *)
Inductive Disposition := DefaultInt | HandleInterrupt.

Record World := mkWorld {
  sigint : Disposition;
  (** what [shutil.get_terminal_size()] gives: (columns, lines), or a failure *)
  terminal : option (nat * nat);
  console : Console
}.

Record Run (A : Type) := mkRun {
  outcome : Outcome A;
  events : list Event;
  world : World
}.

Definition M (A : Type) := World -> Run A.

Definition ret {A} (a : A) : M A := fun w => mkRun (Return a) [] w.

Definition raise {A} (e : Exn) : M A := fun w => mkRun (Raise e) [] w.

Definition bind {A B} (m : M A) (k : A -> M B) : M B := fun w =>
  let r := m w in
  match outcome r with
  | Return a => let r' := k a (world r) in
                mkRun (outcome r') (events r ++ events r') (world r')
  | Raise e => mkRun (Raise e) (events r) (world r)
  end.

Definition emit (e : Event) : M unit := fun w => mkRun (Return tt) [e] w.

Notation "x <- m ;; k" := (bind m (fun x => k))
  (at level 61, m at next level, right associativity).
Notation "m ;;; k" := (bind m (fun _ => k))
  (at level 61, right associativity).

(** [try: body  except Exception as e: handler e] *)
Definition try_except {A} (body : M A) (handler : Exn -> M A) : M A := fun w =>
  let r := body w in
  match outcome r with
  | Return a => r
  | Raise e =>
      if is_Exception e then
        let r' := handler e (world r) in
        mkRun (outcome r') (events r ++ events r') (world r')
      else r
  end.

(** [with Live(shown, transient=...) as live: body].  [Live.__exit__] stops
    the display and lets an exception of the body through. *)
Definition with_live {A} (shown : Renderable) (transient : bool) (body : M A) : M A :=
  fun w =>
    let r := body w in
    mkRun (outcome r) (LiveStart shown transient :: events r ++ [LiveStop]) (world r).

(** [console.render_str(s)]: the markup is parsed, and nothing is shown
    when that fails. *)
Definition render_str (s : string) : M unit := fun w =>
  match Markup.render_error (console w) s with
  | Some message => raise (MarkupError message) w
  | None => ret tt w
  end.

(** [console.print(s)] *)
Definition console_print (s : string) : M unit :=
  render_str s ;;; emit (ConsolePrint s).

(** [live.update(s)]: the string is rendered at once, and the display
    keeps what it held if that fails. *)
Definition live_update (s : string) : M unit :=
  render_str s ;;; emit (LiveUpdate (Rendered s)).

(** The prompt of [console.input(s)], printed before the line is read. *)
Definition console_prompt (s : string) : M unit :=
  render_str s ;;; emit (ConsolePrompt s).

Definition console_clear : M unit := emit ConsoleClear.
Definition stderr_print (s : string) : M unit := emit (StderrPrint s).

Definition interrupt_message : string :=
  PyStr.nl ++ "[yellow]Search interrupted by user[/yellow]".

(** [handle_interrupt], the handler [setup_signal_handler] installs. *)
Definition handle_interrupt {A} : M A :=
  console_print interrupt_message ;;; raise (SystemExit 0).

(** SIGINT reaches the main thread while it waits. *)
Definition deliver_sigint {A} : M A := fun w =>
  (emit SigintReceived ;;;
   match sigint w with
   | HandleInterrupt => handle_interrupt
   | DefaultInt => raise KeyboardInterrupt
   end) w.

Definition setup_signal_handler : M unit := fun w =>
  mkRun (Return tt) [] (mkWorld HandleInterrupt (terminal w) (console w)).

(** ** The names [core.py] uses *)

(** A lazy fragment sequence, as the [for] loops of the renderers see it:
    it yields chunks and then either is exhausted, raises, or is cut short
    by SIGINT while the process waits for the next chunk. *)
Inductive Stream :=
| Exhausted
| Yield (chunk : string) (rest : Stream)
| Fails (e : Exn)
| Interrupted.

(** [core.py] calls [os], [_build_api_payload], [perform_search] and
    [parse_arguments] but neither imports nor defines them.  What they are
    bound to, if anything, in the module's global namespace is a parameter
    of every function below; [None] is an unbound name.  A binding is a
    function of its arguments: [perform_search] is taken to read the
    context list it is handed, not to change it. *)
Record Globals := mkGlobals {
  g_os_environ_get : option (string -> option string);
  g_build_api_payload : option (string -> string -> bool -> bool -> Payload);
  g_perform_search : option (SearchCall -> Stream);
  g_parse_arguments : option Args
}.

(** The module namespace exactly as the statements of [core.py] leave it. *)
Definition core_globals : Globals := mkGlobals None None None None.

(** The names bound at module level by the imports, the assignment and the
    [def]s of [core.py], in source order. *)
Definition core_names : list string :=
  [ "sys"; "signal"; "Optional"; "List"; "Dict"; "Console"; "Live"; "Spinner";
    "__version__"; "UpdateChecker"; "PerplexityAPI"; "Config";
    "ConversationContext"; "console"; "get_terminal_size"; "clear_new_area";
    "handle_no_stream_search"; "handle_streaming_search"; "handle_search";
    "handle_interactive_mode"; "setup_signal_handler"; "main" ].

Definition defines (names : list string) (name : string) : bool :=
  existsb (String.eqb name) names.

(** [from .core import a, b, ...] in [__init__.py]: each name is looked up
    in the loaded module, in order. *)
Fixpoint import_from (module_name : string) (names wanted : list string) : Outcome unit :=
  match wanted with
  | [] => Return tt
  | n :: rest =>
      if defines names n then import_from module_name names rest
      else Raise (ImportError n module_name)
  end.

(** [import plexsearch], that is running [plexsearch/__init__.py]. *)
Definition import_package : Outcome unit :=
  import_from "plexsearch.core" core_names ["perform_search"; "main"].

(** Reading a global name: [NameError] when it is not bound. *)
Definition lookup_global {A} (name : string) (binding : option A) : M A :=
  match binding with
  | Some v => ret v
  | None => raise (NameError name)
  end.

(** ** Rendering *)

Definition get_terminal_size : M (nat * nat) := fun w =>
  match terminal w with
  | Some (height, width) => ret (height, width) w
  | None => ret (24, 80) w
  end.

Definition clear_new_area : M unit :=
  console_print "[cyan]Clearing screen...[/cyan]" ;;;
  size <- get_terminal_size ;;
  console_print (PyStr.repeat_str PyStr.nl (fst size)) ;;;
  console_clear.

(** [for chunk in stream: acc = step acc chunk] *)
Fixpoint for_chunks {S : Type} (stream : Stream) (step : S -> string -> M S) (acc : S) : M S :=
  match stream with
  | Exhausted => ret acc
  | Yield chunk rest => acc' <- step acc chunk ;; for_chunks rest step acc'
  | Fails e => raise e
  | Interrupted => deliver_sigint
  end.

(** [perform_search(query=..., ...)]: the name is read first, then the one
    outbound request is issued. *)
Definition call_perform_search (g : Globals) (call : SearchCall) : M Stream :=
  perform_search <- lookup_global "perform_search" (g_perform_search g) ;;
  emit (SearchRequest call) ;;;
  ret (perform_search call).

Definition label (text : string) : string := "Perplexity: " ++ text.

(** Loop body of the buffered renderer: [buffer.append(chunk)]. *)
Definition buffer_step (buffer : list string) (chunk : string) : M (list string) :=
  ret (buffer ++ [chunk])%list.

(** Loop body of the streaming renderer:
    [accumulated_text += chunk; live.update(f"Perplexity: {accumulated_text}")]. *)
Definition stream_step (accumulated_text chunk : string) : M string :=
  let accumulated_text := accumulated_text ++ chunk in
  live_update (label accumulated_text) ;;;
  ret accumulated_text.

Definition handle_no_stream_search (g : Globals) (query : string) (args : Args)
    (payload : Payload) : M string :=
  console_print "[cyan]About to clear screen in no_stream mode...[/cyan]" ;;;
  clear_new_area ;;;
  buffer <- with_live (Spinner "dots" "Searching...") true
              (stream <- call_perform_search g
                           (mkSearchCall query (api_key args) (model args) false
                                         (citations args) (p_messages payload)) ;;
               for_chunks stream buffer_step []) ;;
  let content := PyStr.join buffer in
  console_print (label content) ;;;
  ret content.

Definition handle_streaming_search (g : Globals) (query : string) (args : Args)
    (payload : Payload) : M string :=
  with_live (Rendered EmptyString) false
    (stream <- call_perform_search g
                 (mkSearchCall query (api_key args) (model args) true
                               (citations args) (p_messages payload)) ;;
     for_chunks stream stream_step EmptyString).

(** Truth value of the [context] argument: [None] and [[]] are false. *)
Definition truthy (context : option Context) : bool :=
  match context with
  | Some (_ :: _) => true
  | _ => false
  end.

Definition env_is (value : option string) (expected : string) : bool :=
  match value with
  | Some v => String.eqb v expected
  | None => false
  end.

Definition handle_search (g : Globals) (query : string) (args : Args)
    (context : option Context) : M string :=
  no_stream <- (if no_stream args then ret true
                else environ_get <- lookup_global "os" (g_os_environ_get g) ;;
                     ret (env_is (environ_get "OR_APP_NAME") "Aider")) ;;
  build <- lookup_global "_build_api_payload" (g_build_api_payload g) ;;
  let payload := build query (model args) (negb no_stream) (citations args) in
  let payload := if truthy context
                 then mkPayload (p_model payload) (p_stream payload)
                                (p_show_citations payload) context
                 else payload in
  if no_stream then handle_no_stream_search g query args payload
  else handle_streaming_search g query args payload.

(** ** The interactive session *)

(** What the process reads while it waits at a prompt: a line, or SIGINT.
    An empty list is end of input. *)
Inductive Input :=
| Line (s : string)
| Sigint.

(** The state a session is left in: how the call ended, the context list,
    and the input not yet read. *)
Record Session := mkSession {
  s_run : Run unit;
  s_context : Context;
  s_stdin : list Input
}.

Definition s_outcome (s : Session) : Outcome unit := outcome (s_run s).
Definition s_events (s : Session) : list Event := events (s_run s).

(** The session [s], with [evs] having happened before it. *)
Definition after (evs : list Event) (s : Session) : Session :=
  mkSession (mkRun (s_outcome s) (evs ++ s_events s) (world (s_run s)))
            (s_context s) (s_stdin s).

Definition prompt : string := PyStr.nl ++ "[cyan]> [/cyan]".

Definition error_line (e : Exn) : string := "[red]Error:[/red] " ++ exn_str e.

(** The [except Exception as e] handler shared by the loop and [main]. *)
Definition report_error (e : Exn) : M unit :=
  console_print (error_line e) ;;;
  stderr_print (error_line e).

(** The session that [m] starts: it goes on as [k] says once [m] has
    returned, and is over, [context] and [stdin] being what they are, if
    [m] raises. *)
Definition session_bind {A} (m : M A) (context : Context) (stdin : list Input)
    (k : A -> World -> Session) (w : World) : Session :=
  let r := m w in
  match outcome r with
  | Return a => after (events r) (k a (world r))
  | Raise e => mkSession (mkRun (Raise e) (events r) (world r)) context stdin
  end.

(** The [while True] loop of [handle_interactive_mode]; each iteration
    starts with [console.input]. *)
Fixpoint interactive_loop (g : Globals) (args : Args) (stdin : list Input)
    (context : Context) (w : World) : Session :=
  match stdin with
  | [] =>
      mkSession ((console_prompt prompt ;;; raise EOFError) w) context []
  | Sigint :: rest =>
      mkSession ((console_prompt prompt ;;; deliver_sigint) w) context rest
  | Line user_input :: rest =>
      if PyStr.is_empty (PyStr.strip user_input) then
        session_bind
          (console_prompt prompt ;;;
           console_print "[yellow]Please enter a query or type 'exit' to quit.[/yellow]")
          context rest
          (fun _ => interactive_loop g args rest context) w
      else if String.eqb (PyStr.lower user_input) "exit" then
        mkSession ((console_prompt prompt ;;;
                    console_print "[yellow]Exiting interactive mode.[/yellow]") w)
                  context rest
      else
        session_bind (console_prompt prompt ;;; clear_new_area) context rest
          (fun _ w =>
             let context := (context ++ [user_turn user_input])%list in
             let r := handle_search g user_input args (Some context) w in
             match outcome r with
             | Return content =>
                 let context := (context ++ [assistant_turn content])%list in
                 after (events r) (interactive_loop g args rest context (world r))
             | Raise e =>
                 if is_Exception e then
                   after (events r)
                         (session_bind (report_error e) context rest
                            (fun _ => interactive_loop g args rest context) (world r))
                 else
                   mkSession (mkRun (Raise e) (events r) (world r)) context rest
             end) w
  end.

Definition handle_interactive_mode (g : Globals) (args : Args)
    (context : option Context) (stdin : list Input) (w : World) : Session :=
  let context := match context with None => [] | Some c => c end in
  session_bind
    (console_print
       "[green]Entering interactive mode. Type your queries below. Type 'exit' to quit.[/green]")
    context stdin
    (fun _ => interactive_loop g args stdin context) w.

(** ** The entry point *)

(** Code that also reads standard input. *)
Record Process (A : Type) := mkProcess {
  p_run : Run A;
  p_stdin : list Input
}.

Definition P (A : Type) := list Input -> World -> Process A.

Definition lift {A} (m : M A) : P A := fun stdin w => mkProcess (m w) stdin.

Definition pbind {A B} (m : P A) (k : A -> P B) : P B := fun stdin w =>
  let p := m stdin w in
  let r := p_run p in
  match outcome r with
  | Return a =>
      let p' := k a (p_stdin p) (world r) in
      let r' := p_run p' in
      mkProcess (mkRun (outcome r') (events r ++ events r') (world r')) (p_stdin p')
  | Raise e => mkProcess (mkRun (Raise e) (events r) (world r)) (p_stdin p)
  end.

Notation "x <~ m ;; k" := (pbind m (fun x => k))
  (at level 61, m at next level, right associativity).
Notation "m ~;; k" := (pbind m (fun _ => k))
  (at level 61, right associativity).

(** [try: body  except Exception as e: handler e], for code that reads input. *)
Definition ptry_except {A} (body : P A) (handler : Exn -> P A) : P A :=
  fun stdin w =>
    let p := body stdin w in
    let r := p_run p in
    match outcome r with
    | Return _ => p
    | Raise e =>
        if is_Exception e then
          let p' := handler e (p_stdin p) (world r) in
          let r' := p_run p' in
          mkProcess (mkRun (outcome r') (events r ++ events r') (world r')) (p_stdin p')
        else p
    end.

(** The builtin [input(prompt)]. *)
Definition builtin_input (text : string) : P string := fun stdin w =>
  match stdin with
  | [] => mkProcess ((emit (StdinPrompt text) ;;; raise EOFError) w) []
  | Line s :: rest => mkProcess ((emit (StdinPrompt text) ;;; ret s) w) rest
  | Sigint :: rest => mkProcess ((emit (StdinPrompt text) ;;; deliver_sigint) w) rest
  end.

(** The update checker is a collaborator outside [core.py]: what its two
    calls answer is given. *)
Record UpdateChecker := mkUpdateChecker {
  check_and_notify : Outcome (option string);
  update_package : Outcome bool
}.

Definition of_outcome {A} (o : Outcome A) : M A :=
  match o with
  | Return a => ret a
  | Raise e => raise e
  end.

Definition wants_update (response : string) : bool :=
  PyStr.is_empty response || String.eqb response "y" || String.eqb response "yes".

Definition offer_update (checker : UpdateChecker) : P unit :=
  latest_version <~ lift (of_outcome (check_and_notify checker)) ;;
  match latest_version with
  | Some latest_version =>
      if PyStr.is_empty latest_version then lift (ret tt) else
      lift (console_print (PyStr.nl ++ "[yellow]New version " ++ latest_version
                           ++ " available![/yellow]" ++ PyStr.nl)) ~;;
      answer <~ builtin_input "Would you like to update now? (Y/n): " ;;
      let response := PyStr.lower (PyStr.strip answer) in
      if wants_update response then
        lift (try_except
                (updated <- of_outcome (update_package checker) ;;
                 if (updated : bool)
                 then console_print "[green]Successfully updated to the new version! The new version will be used on next execution.[/green]"
                 else console_print "[red]Update failed. Please try updating manually with: pip install --upgrade plexsearch[/red]")
                (fun e => console_print ("[red]Update failed: " ++ exn_str e ++ "[/red]"))) ~;;
        lift (console_print EmptyString)
      else lift (ret tt)
  | None => lift (ret tt)
  end.

Definition session_process (s : Session) : Process unit :=
  mkProcess (s_run s) (s_stdin s).

Definition main (g : Globals) (checker : UpdateChecker) : P unit :=
  ptry_except
    (args <~ lift (lookup_global "parse_arguments" (g_parse_arguments g)) ;;
     lift setup_signal_handler ~;;
     offer_update checker ~;;
     match query args with
     | [] => fun stdin w => session_process (handle_interactive_mode g args None stdin w)
     | words =>
         let query := PyStr.join_with " " words in
         lift (clear_new_area ;;;
               handle_search g query args None ;;;
               ret tt)
     end)
    (fun e => lift (report_error e ;;; raise (SystemExit 1))).

(** The status the process ends with when [main] ends with [o]. *)
Definition exit_status (o : Outcome unit) : nat :=
  match o with
  | Return _ => 0
  | Raise (SystemExit n) => n
  | Raise KeyboardInterrupt => 130
  | Raise _ => 1
  end.

(** ** Fragment sequences and what the terminal shows *)

(** The stream that yields [fragments] and then ends as [ending] says. *)
Definition stream_of (fragments : list string) (ending : Stream) : Stream :=
  fold_right Yield ending fragments.

(** A [Live] display holds one renderable.  [live.update] only replaces it;
    the display is painted when it starts, at each tick of its refresh
    timer and once more when it stops.  [ticks] says, for each update in
    turn, whether a tick fell between it and the next one: updates without
    a tick in between are coalesced. *)
Fixpoint paint (ticks : list bool) (evs : list Event) (held : Renderable) : list Renderable :=
  match evs with
  | [] => []
  | LiveUpdate r :: rest =>
      match ticks with
      | true :: ticks' => r :: paint ticks' rest r
      | false :: ticks' => paint ticks' rest r
      | [] => paint [] rest r
      end
  | LiveStop :: _ => [held]
  | _ :: rest => paint ticks rest held
  end.

Fixpoint last_frame (frames : list Renderable) : option Renderable :=
  match frames with
  | [] => None
  | [r] => Some r
  | _ :: rest => last_frame rest
  end.

(** What the first live display started in [evs] leaves on the terminal
    once it has stopped: its last frame, or nothing if it is transient. *)
Fixpoint final_frame (ticks : list bool) (evs : list Event) : option Renderable :=
  match evs with
  | [] => None
  | LiveStart r transient :: rest =>
      if transient then None else last_frame (r :: paint ticks rest r)
  | _ :: rest => final_frame ticks rest
  end.

(** An event that shows an error to the user the way the rest of the
    program marks errors: a console line that starts with the red marker. *)
Definition is_error_marker (e : Event) : bool :=
  match e with
  | ConsolePrint s => String.prefix "[red]Error" s
  | _ => false
  end.

Definition is_search_request (e : Event) : bool :=
  match e with
  | SearchRequest _ => true
  | _ => false
  end.

Definition is_sigint (e : Event) : bool :=
  match e with
  | SigintReceived => true
  | _ => false
  end.

(** ** The transcript logger *)

(** Modelled from the spec: [_format_message_to_markdown] is imported from
    [plexsearch.core] by the tests but is not part of the source at hand.
    The spec gives one block per Turn, the role name capitalized between
    bold marks, a colon, the content and a blank line:
    [**<Role capitalized>**: <content>\n\n]. *)
Definition _format_message_to_markdown (message : Turn) : string :=
  "**" ++ PyStr.capitalize (role_name (role message)) ++ "**: " ++ content message
       ++ PyStr.nl ++ PyStr.nl.

(** The part of the [json] module the line log needs: strings and objects
    whose members are strings, over the code points below 256. *)
Module Json.

Import PyStr.

Definition obind {A B} (o : option A) (k : A -> option B) : option B :=
  match o with
  | Some a => k a
  | None => None
  end.

Notation "x <-? o ;; k" := (obind o (fun x => k))
  (at level 61, o at next level, right associativity).
Notation "' ( x , y ) <-? o ;; k" := (obind o (fun p => let '(x, y) := p in k))
  (at level 61, x name, y name, o at next level, right associativity).

Definition is_char (n : N) (c : ascii) : bool := (code c =? n)%N.

(** Lower-case hexadecimal digit of [n < 16], as ["{0:04x}".format] writes it. *)
Definition hex_digit (n : N) : ascii :=
  if (n <? 10)%N then ascii_of_N (48 + n) else ascii_of_N (87 + n).

Definition hex_value (c : ascii) : option N :=
  if between 48 57 c then Some (code c - 48)%N
  else if between 97 102 c then Some (code c - 87)%N
  else if between 65 70 c then Some (code c - 55)%N
  else None.

(** [json.dumps] on one character of a string, [ensure_ascii] left on. *)
Definition escape_char (c : ascii) : string :=
  if is_char 34 c then backslash ++ dquote
  else if is_char 92 c then backslash ++ backslash
  else if is_char 10 c then backslash ++ "n"
  else if is_char 13 c then backslash ++ "r"
  else if is_char 9 c then backslash ++ "t"
  else if is_char 8 c then backslash ++ "b"
  else if is_char 12 c then backslash ++ "f"
  else if between 32 126 c then String c EmptyString
  else backslash ++ "u00"
       ++ String (hex_digit (code c / 16)) (String (hex_digit (code c mod 16)) EmptyString).

Fixpoint escape (s : string) : string :=
  match s with
  | EmptyString => EmptyString
  | String c s' => escape_char c ++ escape s'
  end.

Definition dumps_str (s : string) : string := dquote ++ escape s ++ dquote.

(** [json.dumps(turn)]: the default separators, keys in insertion order. *)
Definition dumps_turn (t : Turn) : string :=
  "{" ++ dumps_str "role" ++ ": " ++ dumps_str (role_name (role t)) ++ ", "
      ++ dumps_str "content" ++ ": " ++ dumps_str (content t) ++ "}".

(** The character a backslash escape stands for. *)
Definition unescape (e : ascii) : option ascii :=
  if is_char 34 e then Some (ascii_of_N 34)
  else if is_char 92 e then Some (ascii_of_N 92)
  else if is_char 47 e then Some (ascii_of_N 47)
  else if is_char 98 e then Some (ascii_of_N 8)
  else if is_char 102 e then Some (ascii_of_N 12)
  else if is_char 110 e then Some (ascii_of_N 10)
  else if is_char 114 e then Some (ascii_of_N 13)
  else if is_char 116 e then Some (ascii_of_N 9)
  else None.

Definition hex4 (a b c d : ascii) : option N :=
  x <-? hex_value a ;; y <-? hex_value b ;; z <-? hex_value c ;; t <-? hex_value d ;;
  Some (((x * 16 + y) * 16 + z) * 16 + t)%N.

Definition push (c : ascii) (r : option (string * string)) : option (string * string) :=
  '(text, rest) <-? r ;; Some (String c text, rest).

(** The characters of a JSON string after its opening quote, up to the
    closing quote: the decoded text and what follows.  Raw control
    characters are refused, as the strict decoder does; an escape for a
    code point from 256 on is outside this model of [str] and refused. *)
Fixpoint parse_chars (s : string) : option (string * string) :=
  match s with
  | EmptyString => None
  | String c rest =>
      if is_char 34 c then Some (EmptyString, rest)
      else if is_char 92 c then
        match rest with
        | EmptyString => None
        | String e rest' =>
            if is_char 117 e then
              match rest' with
              | String h1 (String h2 (String h3 (String h4 rest''))) =>
                  n <-? hex4 h1 h2 h3 h4 ;;
                  if (n <? 256)%N then push (ascii_of_N n) (parse_chars rest'') else None
              | _ => None
              end
            else
              d <-? unescape e ;; push d (parse_chars rest')
        end
      else if (code c <? 32)%N then None
      else push c (parse_chars rest)
  end.

(** JSON whitespace: space, TAB, LF, CR. *)
Definition is_ws (c : ascii) : bool :=
  is_char 32 c || is_char 9 c || is_char 10 c || is_char 13 c.

Fixpoint skip_ws (s : string) : string :=
  match s with
  | EmptyString => EmptyString
  | String c s' => if is_ws c then skip_ws s' else s
  end.

(** Skip whitespace, then read the one character [n]. *)
Definition expect (n : N) (s : string) : option string :=
  match skip_ws s with
  | String c rest => if is_char n c then Some rest else None
  | EmptyString => None
  end.

Definition parse_string (s : string) : option (string * string) :=
  s <-? expect 34 s ;; parse_chars s.

(** The members of an object after its opening brace, the object not being
    empty.  Every member uses up input, so the length of the input is
    fuel enough. *)
Fixpoint parse_members (fuel : nat) (s : string) : option (list (string * string) * string) :=
  match fuel with
  | O => None
  | S fuel' =>
      '(key, s) <-? parse_string s ;;
      s <-? expect 58 s ;;
      '(value, s) <-? parse_string s ;;
      match skip_ws s with
      | String d rest =>
          if is_char 44 d then
            '(more, rest') <-? parse_members fuel' rest ;;
            Some ((key, value) :: more, rest')
          else if is_char 125 d then Some ([(key, value)], rest)
          else None
      | EmptyString => None
      end
  end.

Definition parse_object (s : string) : option (list (string * string) * string) :=
  s <-? expect 123 s ;;
  match skip_ws s with
  | String c rest =>
      if is_char 125 c then Some ([], rest) else parse_members (String.length s) s
  | EmptyString => None
  end.

(** [json.loads(line)] for a line that holds an object of strings: the
    members in order of appearance.  Input left over after the object is
    an error. *)
Definition loads (s : string) : option (list (string * string)) :=
  '(members, rest) <-? parse_object s ;;
  if is_empty (skip_ws rest) then Some members else None.

(** [d[key]] of the dict the decoder builds: the last member wins. *)
Definition get (key : string) (members : list (string * string)) : option string :=
  fold_left (fun found kv => if String.eqb (fst kv) key then Some (snd kv) else found)
            members None.

Definition role_of_name (name : string) : option Role :=
  if String.eqb name "system" then Some System
  else if String.eqb name "user" then Some User
  else if String.eqb name "assistant" then Some Assistant
  else None.

(** The Turn a decoded dict is equal to, when it is equal to one: it has
    the keys [role] and [content] and no other. *)
Definition turn_of_dict (members : list (string * string)) : option Turn :=
  if forallb (fun kv => String.eqb (fst kv) "role" || String.eqb (fst kv) "content") members
  then
    name <-? get "role" members ;;
    text <-? get "content" members ;;
    r <-? role_of_name name ;;
    Some (mkTurn r text)
  else None.

Definition loads_turn (line : string) : option Turn :=
  members <-? loads line ;; turn_of_dict members.

End Json.

(** The lines of a text file as iterating over it gives them, with
    universal newlines: a line ends after LF, CR LF or CR, each read as
    LF, and a last line without terminator is a line too. *)
Fixpoint readlines (text : string) : list string :=
  match text with
  | EmptyString => []
  | String c rest =>
      if Json.is_char 10 c then PyStr.nl :: readlines rest
      else if Json.is_char 13 c then
        match rest with
        | String c' rest' =>
            if Json.is_char 10 c' then PyStr.nl :: readlines rest'
            else PyStr.nl :: readlines rest
        | EmptyString => [PyStr.nl]
        end
      else
        match readlines rest with
        | [] => [String c EmptyString]
        | line :: lines => String c line :: lines
        end
  end.

(** A log destination: a file that can be opened and its text, or one that
    cannot be and the error opening it raises. *)
Inductive LogFile :=
| Writable (text : string)
| Unwritable (e : Exn).

(** Modelled from the spec: [log_conversation] is imported from
    [plexsearch.core] by the tests but is not part of the source at hand.
    The spec: a line-oriented log, each Turn serialized as one JSON record
    per line, the file opened in append mode; a destination that cannot be
    opened is reported as a warning and aborts nothing. *)
Definition log_conversation (log_file : LogFile) (messages : list Turn) : M LogFile :=
  match log_file with
  | Writable text =>
      ret (Writable (text ++ PyStr.join (map (fun message => Json.dumps_turn message ++ PyStr.nl)
                                             messages)))
  | Unwritable e =>
      emit (ConsolePrint ("[red]Error writing to log file: " ++ exn_str e ++ "[/red]")) ;;;
      ret log_file
  end.

(** [[json.loads(line) for line in f]]: one parse per line, all of them
    have to succeed. *)
Fixpoint parse_lines (lines : list string) : option (list Turn) :=
  match lines with
  | [] => Some []
  | line :: rest =>
      match Json.loads_turn line, parse_lines rest with
      | Some t, Some ts => Some (t :: ts)
      | _, _ => None
      end
  end.

Definition read_log (log_file : LogFile) : option (list Turn) :=
  match log_file with
  | Writable text => parse_lines (readlines text)
  | Unwritable _ => None
  end.

(** ** Vocabulary of the statements *)

(** The updates the streaming renderer sends to its display for
    [fragments], its buffer holding [acc] before the first of them. *)
Fixpoint updates_from (acc : string) (fragments : list string) : list Event :=
  match fragments with
  | [] => []
  | f :: rest => LiveUpdate (Rendered (label (acc ++ f))) :: updates_from (acc ++ f) rest
  end.

(** The console of [w] renders the markup [s]. *)
Definition renders (w : World) (s : string) : Prop :=
  Markup.render_error (console w) s = None.

(** The first of the updates for [fragments] that the display cannot
    render, its buffer holding [acc] before the first of them: how many
    updates went well before it, and the message of its [MarkupError]. *)
Fixpoint failed_update (c : Console) (acc : string) (fragments : list string)
    : option (nat * string) :=
  match fragments with
  | [] => None
  | f :: rest =>
      match Markup.render_error c (label (acc ++ f)) with
      | Some message => Some (0, message)
      | None =>
          match failed_update c (acc ++ f) rest with
          | Some (k, message) => Some (S k, message)
          | None => None
          end
      end
  end.

(** The call the renderers make for [query]. *)
Definition search_call (query : string) (args : Args) (stream : bool)
    (payload : Payload) : SearchCall :=
  mkSearchCall query (api_key args) (model args) stream (citations args)
               (p_messages payload).

(** All the ways of writing [s] in upper- and lower-case letters. *)
Fixpoint letter_cases (s : string) : list string :=
  match s with
  | EmptyString => [EmptyString]
  | String c s' =>
      flat_map (fun t => [String (PyStr.lower_char c) t; String (PyStr.upper_char c) t])
               (letter_cases s')
  end.

(** Blank input: nothing is left of it once stripped. *)
Definition blank (user_input : string) : bool :=
  PyStr.is_empty (PyStr.strip user_input).

(** What [clear_new_area] puts on the terminal. *)
Definition clearing (w : World) : list Event := events (clear_new_area w).

(** Empty or made of whitespace only. *)
Fixpoint whitespace_only (s : string) : bool :=
  match s with
  | EmptyString => true
  | String c s' => PyStr.isspace c && whitespace_only s'
  end.

(** What the [except Exception] handlers put on the console and on the
    diagnostic stream for [e]. *)
Definition reported (e : Exn) : list Event :=
  [ConsolePrint (error_line e); StderrPrint (error_line e)].

(** Only [setup_signal_handler] changes the world; the rest of the code
    reads it. *)
Definition keeps_world {A} (m : M A) : Prop := forall w, world (m w) = w.

Definition is_live_stop (e : Event) : bool :=
  match e with
  | LiveStop => true
  | _ => false
  end.

(** The events of a run that SIGINT has ended: up to the signal, then the
    message of the handler, then nothing but live displays being closed on
    the way out. *)
Definition ended_by_sigint (evs : list Event) : Prop :=
  exists before closing,
    evs = (before ++ SigintReceived :: ConsolePrint interrupt_message :: closing)%list
    /\ existsb is_sigint before = false
    /\ forallb is_live_stop closing = true.

(** A run in which SIGINT, if it came at all, was the end: the outcome is
    [SystemExit(0)] and nothing but the handler followed the signal. *)
Definition sigint_safe {A} (r : Run A) : Prop :=
  existsb is_sigint (events r) = false
  \/ (outcome r = Raise (SystemExit 0) /\ ended_by_sigint (events r)).

Definition installed (w : World) : Prop := sigint w = HandleInterrupt.

(** Code that, run with the handler installed, leaves it installed and is
    ended by any SIGINT that reaches it. *)
Definition handles_sigint {A} (m : M A) : Prop :=
  forall w, installed w -> installed (world (m w)) /\ sigint_safe (m w).

Definition process_handles_sigint {A} (p : P A) : Prop :=
  forall stdin w,
    installed w ->
    installed (world (p_run (p stdin w))) /\ sigint_safe (p_run (p stdin w)).

Definition process_keeps_world {A} (p : P A) : Prop :=
  forall stdin w, world (p_run (p stdin w)) = w.

(** The text of the line log for [messages]. *)
Definition log_text (messages : list Turn) : string :=
  PyStr.join (map (fun message => Json.dumps_turn message ++ PyStr.nl) messages).

(** No line terminator in [s]. *)
Fixpoint no_eol (s : string) : bool :=
  match s with
  | EmptyString => true
  | String c s' => negb (Json.is_char 10 c || Json.is_char 13 c) && no_eol s'
  end.

(** ** Sample inputs *)

Definition sample_args : Args := mkArgs "key" "sonar" false false [].

(** A console whose style names have no other normal form than the one
    [Style.normalize] falls back to, and whose [@] tags all evaluate. *)
Definition sample_console : Console :=
  mkConsole (fun style => PyStr.lower (PyStr.strip style)) (fun _ => None).

Definition sample_world : World := mkWorld DefaultInt (Some (80, 24)) sample_console.

Definition sample_payload : Payload := mkPayload "sonar" true false None.

(** A namespace in which the four missing names are bound, the search
    answering every call with [reply]. *)
Definition sample_globals (reply : Stream) : Globals :=
  mkGlobals (Some (fun _ => None))
            (Some (fun _ model stream show_citations =>
                     mkPayload model stream show_citations None))
            (Some (fun _ => reply))
            (Some sample_args).

Definition sample_checker : UpdateChecker := mkUpdateChecker (Return None) (Return true).

(** The world of a session, once [main] has installed the handler. *)
Definition session_world : World := mkWorld HandleInterrupt (Some (80, 24)) sample_console.

(** ** Vocabulary of the further properties *)

Definition is_live_boundary (e : Event) : bool :=
  match e with
  | LiveStart _ _ | LiveStop => true
  | _ => false
  end.

(** Code none of whose events satisfies [p]. *)
Definition silent {A} (p : Event -> bool) (m : M A) : Prop :=
  forall w, filter p (events (m w)) = [].

(** The fragments a stream yields before it ends. *)
Fixpoint chunks (stream : Stream) : list string :=
  match stream with
  | Yield chunk rest => chunk :: chunks rest
  | _ => []
  end.

(** How a stream ends, once its fragments are taken. *)
Fixpoint ending_of (stream : Stream) : Stream :=
  match stream with
  | Yield _ rest => ending_of rest
  | ending => ending
  end.

(** Whether [handle_search] runs the buffered renderer: the flag, or the
    environment saying the caller is Aider. *)
Definition buffered_mode (environ_get : string -> option string) (args : Args) : bool :=
  no_stream args || env_is (environ_get "OR_APP_NAME") "Aider".

(** The payload [handle_search] hands to its renderer. *)
Definition request_payload (build : string -> string -> bool -> bool -> Payload)
    (buffered : bool) (query : string) (args : Args) (context : option Context) : Payload :=
  let payload := build query (model args) (negb buffered) (citations args) in
  if truthy context
  then mkPayload (p_model payload) (p_stream payload) (p_show_citations payload) context
  else payload.

(** The frames painted by the first live display started in [evs]. *)
Fixpoint painted_frames (ticks : list bool) (evs : list Event) : list Renderable :=
  match evs with
  | [] => []
  | LiveStart r _ :: rest => r :: paint ticks rest r
  | _ :: rest => painted_frames ticks rest
  end.

(** What the streaming display holds after [k] fragments. *)
Definition partial_text (fragments : list string) (k : nat) : Renderable :=
  match k with
  | O => Rendered EmptyString
  | S _ => Rendered (label (PyStr.join (firstn k fragments)))
  end.

(** How many updates the display of the streaming renderer takes: all of
    them, or those before the first that does not render. *)
Definition updates_shown (c : Console) (fragments : list string) : nat :=
  match failed_update c EmptyString fragments with
  | Some (k, _) => k
  | None => length fragments
  end.

(** Turns as exchanges leave them: user Turns, each followed by at most one
    assistant Turn. *)
Fixpoint exchanges (turns : list Turn) : bool :=
  match turns with
  | [] => true
  | mkTurn User _ :: rest =>
      match rest with
      | mkTurn Assistant _ :: rest' => exchanges rest'
      | _ => exchanges rest
      end
  | _ => false
  end.

Definition not_blank_line (i : Input) : bool :=
  match i with
  | Line s => negb (blank s)
  | Sigint => true
  end.

(** The events a live display reacts to once it is started. *)
Definition is_paint_event (e : Event) : bool :=
  match e with
  | LiveUpdate _ | LiveStop => true
  | _ => false
  end.

(** * Properties *)

Unset Implicit Arguments.

(** ** Strings and runs *)

Lemma append_empty_r (s : string) : s ++ EmptyString = s.
Proof. induction s as [|c s IH]; simpl; [reflexivity | now rewrite IH]. Qed.

Lemma append_assoc (s t u : string) : (s ++ t) ++ u = s ++ (t ++ u).
Proof. induction s as [|c s IH]; simpl; [reflexivity | now rewrite IH]. Qed.

Lemma join_app (xs ys : list string) :
  PyStr.join (xs ++ ys) = PyStr.join xs ++ PyStr.join ys.
Proof.
  unfold PyStr.join. induction xs as [|x xs IH]; simpl; [reflexivity|].
  now rewrite IH, append_assoc.
Qed.

Lemma run_eta {A} (r : Run A) : mkRun (outcome r) (events r) (world r) = r.
Proof. now destruct r. Qed.

Lemma bind_ret {A B} (a : A) (k : A -> M B) (w : World) : bind (ret a) k w = k a w.
Proof. unfold bind, ret; simpl. apply run_eta. Qed.

Lemma bind_run {A B} (m : M A) (k : A -> M B) (w w' : World) (a : A) (evs : list Event) :
  m w = mkRun (Return a) evs w' ->
  bind m k w = mkRun (outcome (k a w')) (evs ++ events (k a w')) (world (k a w')).
Proof. intros H. unfold bind. now rewrite H. Qed.

Lemma bind_raise {A B} (m : M A) (k : A -> M B) (w w' : World) (e : Exn) (evs : list Event) :
  m w = mkRun (Raise e) evs w' ->
  bind m k w = mkRun (Raise e) evs w'.
Proof. intros H. unfold bind. now rewrite H. Qed.

(** Two event lists that differ in how their appends are nested. *)
Ltac same_events :=
  repeat (rewrite <- app_assoc || rewrite <- app_comm_cons || rewrite app_nil_r);
  reflexivity.

(** ** Console markup *)

(** Without an opening bracket there is no tag, and nothing to fail on. *)
Lemma scan_plain (c : Console) (s : string) :
  Markup.plain s = true ->
  forall skip position run stack, Markup.scan c s skip position run stack = None.
Proof.
  induction s as [|ch s IH]; intros Hs skip position run stack; [reflexivity|].
  cbn in Hs. apply andb_true_iff in Hs as [Hch Hs]. apply negb_true_iff in Hch.
  cbn [Markup.scan]. destruct skip; [|now apply IH].
  rewrite Hch. destruct (Ascii.eqb ch "\"); now apply IH.
Qed.

Lemma renders_plain (w : World) (s : string) : Markup.plain s = true -> renders w s.
Proof. intros Hs. now apply scan_plain. Qed.

Lemma plain_app (s t : string) :
  Markup.plain (s ++ t) = Markup.plain s && Markup.plain t.
Proof.
  induction s as [|c s IH]; [reflexivity|]. cbn. now rewrite IH, andb_assoc.
Qed.

Lemma tag_body_app (s t x : string) :
  Markup.tag_body s = Some x -> Markup.tag_body (s ++ t) = Some x.
Proof.
  revert x. induction s as [|c s IH]; intros x; cbn; [discriminate|].
  destruct (Ascii.eqb c "]"); [trivial|].
  destruct (Ascii.eqb c "["); [discriminate|].
  destruct (Markup.tag_body s) as [y|]; [|discriminate].
  intros H. now rewrite (IH y eq_refl).
Qed.

Lemma tag_body_cut (s t x : string) :
  Markup.tag_body s = None -> Markup.tag_body (s ++ t) = Some x -> Markup.plain s = true.
Proof.
  revert x. induction s as [|c s IH]; intros x; cbn; [reflexivity|].
  destruct (Ascii.eqb c "]"); [discriminate|].
  destruct (Ascii.eqb c "["); [discriminate|].
  destruct (Markup.tag_body s) as [y|]; [discriminate|]. intros _.
  destruct (Markup.tag_body (s ++ t)) as [z|] eqn:E; [|discriminate].
  intros _. cbn. now apply (IH z).
Qed.

Lemma tag_at_app (s t x : string) :
  Markup.tag_at s = Some x -> Markup.tag_at (s ++ t) = Some x.
Proof.
  destruct s as [|c s]; [discriminate|]. cbn [Markup.tag_at append].
  destruct (Markup.tag_start c); [|discriminate].
  apply (tag_body_app (String c s)).
Qed.

Lemma tag_at_cut (s t x : string) :
  Markup.tag_at s = None -> Markup.tag_at (s ++ t) = Some x -> Markup.plain s = true.
Proof.
  destruct s as [|c s]; [reflexivity|]. cbn [Markup.tag_at append].
  destruct (Markup.tag_start c); [|discriminate].
  apply (tag_body_cut (String c s)).
Qed.

(** Tags are read from left to right: what a string fails on, every
    string that continues it fails on too. *)
Lemma scan_app (c : Console) (s t : string) :
  forall skip position run stack message,
    Markup.scan c s skip position run stack = Some message ->
    Markup.scan c (s ++ t) skip position run stack = Some message.
Proof.
  induction s as [|ch s IH]; intros skip position run stack message; [discriminate|].
  cbn [Markup.scan append]. destruct skip; [|apply IH].
  destruct (Ascii.eqb ch "\"); [apply IH|].
  destruct (Ascii.eqb ch "["); [|apply IH].
  destruct (Markup.tag_at s) as [tag_text|] eqn:Htag.
  - rewrite (tag_at_app s t tag_text Htag).
    destruct (Nat.even run); [|apply IH].
    destruct (Markup.starts_with "/" _); [|apply IH].
    destruct (Markup.close c _ position stack); [trivial | apply IH].
  - destruct (Markup.tag_at (s ++ t)) as [tag_text|] eqn:Htag'; [|apply IH].
    intros H. now rewrite (scan_plain c s (tag_at_cut s t tag_text Htag Htag')) in H.
Qed.

(** A text that renders has rendered all along, while it was growing. *)
Lemma renders_prefix (w : World) (s t : string) : renders w (s ++ t) -> renders w s.
Proof.
  unfold renders, Markup.render_error. intros H.
  destruct (Markup.scan (console w) s 0 0 0 []) as [message|] eqn:E; [|reflexivity].
  now rewrite (scan_app _ s t _ _ _ _ _ E) in H.
Qed.

(** The literal strings of [core.py] are well-formed markup, whatever the
    normal forms of their style names are. *)
Ltac static_markup :=
  unfold renders, Markup.render_error; cbn;
  repeat first
    [ progress unfold Markup.close; cbn
    | rewrite String.eqb_refl; cbn
    | match goal with
      | |- context [Markup.starts_with ?c ?s] => destruct (Markup.starts_with c s); cbn
      end ];
  try reflexivity.

Lemma renders_empty (w : World) : renders w EmptyString.
Proof. reflexivity. Qed.

Lemma renders_clearing (w : World) : renders w "[cyan]Clearing screen...[/cyan]".
Proof. static_markup. Qed.

Lemma plain_newlines (n : nat) : Markup.plain (PyStr.repeat_str PyStr.nl n) = true.
Proof. induction n as [|n IH]; [reflexivity | exact IH]. Qed.

Lemma renders_newlines (w : World) (n : nat) : renders w (PyStr.repeat_str PyStr.nl n).
Proof. apply renders_plain, plain_newlines. Qed.

Lemma renders_about_to_clear (w : World) :
  renders w "[cyan]About to clear screen in no_stream mode...[/cyan]".
Proof. static_markup. Qed.

Lemma renders_hint (w : World) :
  renders w "[yellow]Please enter a query or type 'exit' to quit.[/yellow]".
Proof. static_markup. Qed.

Lemma renders_exiting (w : World) : renders w "[yellow]Exiting interactive mode.[/yellow]".
Proof. static_markup. Qed.

Lemma renders_entering (w : World) :
  renders w "[green]Entering interactive mode. Type your queries below. Type 'exit' to quit.[/green]".
Proof. static_markup. Qed.

Lemma renders_interrupt_message (w : World) : renders w interrupt_message.
Proof. static_markup. Qed.

Lemma renders_prompt (w : World) : renders w prompt.
Proof. static_markup. Qed.

Lemma renders_updated (w : World) :
  renders w "[green]Successfully updated to the new version! The new version will be used on next execution.[/green]".
Proof. static_markup. Qed.

Lemma renders_update_failed (w : World) :
  renders w "[red]Update failed. Please try updating manually with: pip install --upgrade plexsearch[/red]".
Proof. static_markup. Qed.

(** An error whose message has no opening bracket can be reported. *)
Lemma renders_error_line (w : World) (e : Exn) :
  Markup.plain (exn_str e) = true -> renders w (error_line e).
Proof.
  intros He. unfold error_line. generalize dependent (exn_str e). intros message He.
  static_markup; now apply scan_plain.
Qed.

Create HintDb markup.

#[local] Hint Resolve renders_empty renders_clearing renders_newlines renders_about_to_clear
  renders_hint renders_exiting renders_entering renders_interrupt_message renders_prompt
  renders_updated renders_update_failed : markup.

Lemma render_str_run (s : string) (w : World) :
  render_str s w
  = match Markup.render_error (console w) s with
    | Some message => mkRun (Raise (MarkupError message)) [] w
    | None => mkRun (Return tt) [] w
    end.
Proof. unfold render_str. now destruct (Markup.render_error _ _). Qed.

Lemma console_print_run (s : string) (w : World) :
  console_print s w
  = match Markup.render_error (console w) s with
    | Some message => mkRun (Raise (MarkupError message)) [] w
    | None => mkRun (Return tt) [ConsolePrint s] w
    end.
Proof.
  unfold console_print, bind. rewrite render_str_run.
  now destruct (Markup.render_error _ _).
Qed.

Lemma console_print_renders (s : string) (w : World) :
  renders w s -> console_print s w = mkRun (Return tt) [ConsolePrint s] w.
Proof. intros H. rewrite console_print_run. now rewrite H. Qed.

Lemma console_prompt_run (s : string) (w : World) :
  console_prompt s w
  = match Markup.render_error (console w) s with
    | Some message => mkRun (Raise (MarkupError message)) [] w
    | None => mkRun (Return tt) [ConsolePrompt s] w
    end.
Proof.
  unfold console_prompt, bind. rewrite render_str_run.
  now destruct (Markup.render_error _ _).
Qed.

Lemma console_prompt_renders (s : string) (w : World) :
  renders w s -> console_prompt s w = mkRun (Return tt) [ConsolePrompt s] w.
Proof. intros H. rewrite console_prompt_run. now rewrite H. Qed.

Lemma live_update_run (s : string) (w : World) :
  live_update s w
  = match Markup.render_error (console w) s with
    | Some message => mkRun (Raise (MarkupError message)) [] w
    | None => mkRun (Return tt) [LiveUpdate (Rendered s)] w
    end.
Proof.
  unfold live_update, bind. rewrite render_str_run.
  now destruct (Markup.render_error _ _).
Qed.

#[local] Arguments label : simpl never.
#[local] Arguments clearing : simpl never.
#[local] Arguments search_call : simpl never.

Lemma get_terminal_size_run (w : World) :
  get_terminal_size w
  = mkRun (Return (match terminal w with Some size => size | None => (24, 80) end)) [] w.
Proof. unfold get_terminal_size. now destruct (terminal w) as [[h wd]|]. Qed.

Lemma clear_new_area_events (w : World) :
  clear_new_area w
  = mkRun (Return tt)
          [ ConsolePrint "[cyan]Clearing screen...[/cyan]";
            ConsolePrint (PyStr.repeat_str PyStr.nl
                            (match terminal w with Some (height, _) => height | None => 24 end));
            ConsoleClear ]
          w.
Proof.
  unfold clear_new_area.
  erewrite bind_run by (apply console_print_renders; auto with markup).
  erewrite bind_run by apply get_terminal_size_run.
  erewrite bind_run by (apply console_print_renders; auto with markup).
  now destruct (terminal w) as [[h wd]|].
Qed.

Lemma clearing_events (w : World) :
  clearing w
  = [ ConsolePrint "[cyan]Clearing screen...[/cyan]";
      ConsolePrint (PyStr.repeat_str PyStr.nl
                      (match terminal w with Some (height, _) => height | None => 24 end));
      ConsoleClear ].
Proof. unfold clearing. now rewrite clear_new_area_events. Qed.

Lemma clear_new_area_run (w : World) :
  clear_new_area w = mkRun (Return tt) (clearing w) w.
Proof. unfold clearing. now rewrite clear_new_area_events. Qed.

(** ** Code that leaves the world as it is *)

Create HintDb keeps.

Lemma keeps_ret {A} (a : A) : keeps_world (ret a).
Proof. intros w. reflexivity. Qed.

Lemma keeps_raise {A} (e : Exn) : keeps_world (@raise A e).
Proof. intros w. reflexivity. Qed.

Lemma keeps_emit (e : Event) : keeps_world (emit e).
Proof. intros w. reflexivity. Qed.

Lemma keeps_bind {A B} (m : M A) (k : A -> M B) :
  keeps_world m -> (forall a, keeps_world (k a)) -> keeps_world (bind m k).
Proof.
  intros Hm Hk w. unfold bind. specialize (Hm w).
  destruct (m w) as [[a|e] evs w']; cbn in *; subst; [apply Hk | reflexivity].
Qed.

Lemma keeps_with_live {A} shown transient (body : M A) :
  keeps_world body -> keeps_world (with_live shown transient body).
Proof. intros Hb w. apply Hb. Qed.

Lemma keeps_render_str s : keeps_world (render_str s).
Proof. intros w. rewrite render_str_run. now destruct (Markup.render_error _ _). Qed.

Lemma keeps_console_print s : keeps_world (console_print s).
Proof. intros w. rewrite console_print_run. now destruct (Markup.render_error _ _). Qed.

Lemma keeps_console_prompt s : keeps_world (console_prompt s).
Proof. intros w. rewrite console_prompt_run. now destruct (Markup.render_error _ _). Qed.

Lemma keeps_live_update s : keeps_world (live_update s).
Proof. intros w. rewrite live_update_run. now destruct (Markup.render_error _ _). Qed.

Lemma keeps_lookup_global {A} name (binding : option A) :
  keeps_world (lookup_global name binding).
Proof. destruct binding; intros w; reflexivity. Qed.

#[local] Hint Resolve keeps_ret keeps_raise keeps_emit keeps_render_str keeps_console_print
  keeps_console_prompt keeps_live_update keeps_lookup_global : keeps.

Ltac keeps :=
  repeat first
    [ solve [auto with keeps]
    | apply keeps_bind; [|intros ?]
    | apply keeps_with_live
    | progress unfold console_clear, stderr_print, handle_interrupt ].

Lemma keeps_deliver_sigint {A} : keeps_world (@deliver_sigint A).
Proof.
  intros w. unfold deliver_sigint.
  apply (keeps_bind (emit SigintReceived)
           (fun _ => match sigint w with
                     | HandleInterrupt => handle_interrupt
                     | DefaultInt => raise KeyboardInterrupt
                     end)); [auto with keeps|].
  intros _. destruct (sigint w); keeps.
Qed.

#[local] Hint Resolve keeps_deliver_sigint : keeps.

Lemma keeps_for_chunks {S : Type} (stream : Stream) (step : S -> string -> M S) :
  (forall acc chunk, keeps_world (step acc chunk)) ->
  forall acc, keeps_world (for_chunks stream step acc).
Proof.
  intros Hstep. induction stream as [|chunk rest IH|e|]; intros acc; cbn; keeps.
Qed.

Lemma keeps_clear_new_area : keeps_world clear_new_area.
Proof. intros w. now rewrite clear_new_area_run. Qed.

Lemma keeps_call_perform_search g call : keeps_world (call_perform_search g call).
Proof. unfold call_perform_search. keeps. Qed.

Lemma keeps_stream_step acc chunk : keeps_world (stream_step acc chunk).
Proof. unfold stream_step. keeps. Qed.

Lemma keeps_buffer_step acc chunk : keeps_world (buffer_step acc chunk).
Proof. unfold buffer_step. keeps. Qed.

#[local] Hint Resolve keeps_clear_new_area keeps_call_perform_search
  keeps_stream_step keeps_buffer_step : keeps.

Lemma keeps_handle_streaming_search g query args payload :
  keeps_world (handle_streaming_search g query args payload).
Proof.
  unfold handle_streaming_search. keeps. apply keeps_for_chunks. auto with keeps.
Qed.

Lemma keeps_handle_no_stream_search g query args payload :
  keeps_world (handle_no_stream_search g query args payload).
Proof.
  unfold handle_no_stream_search. keeps. apply keeps_for_chunks. auto with keeps.
Qed.

#[local] Hint Resolve keeps_handle_streaming_search keeps_handle_no_stream_search : keeps.

Lemma keeps_handle_search g query args context :
  keeps_world (handle_search g query args context).
Proof.
  unfold handle_search. keeps.
  - destruct (no_stream args); keeps.
  - match goal with |- keeps_world (if ?b then _ else _) => destruct b end; keeps.
Qed.

Lemma keeps_report_error e : keeps_world (report_error e).
Proof. unfold report_error. keeps. Qed.

(** ** The consumption loops *)

Lemma buffer_loop (fragments : list string) (ending : Stream) (buffer : list string) (w : World) :
  for_chunks (stream_of fragments ending) buffer_step buffer w
  = for_chunks ending buffer_step (buffer ++ fragments)%list w.
Proof.
  revert buffer. induction fragments as [|f fs IH]; intros buffer; simpl.
  - now rewrite app_nil_r.
  - unfold buffer_step at 1. rewrite bind_ret, IH, <- app_assoc. reflexivity.
Qed.

(** One pass through the body of the streaming loop: the update is shown,
    or it raises and nothing changes. *)
Lemma stream_step_run (acc chunk : string) (w : World) :
  stream_step acc chunk w
  = match Markup.render_error (console w) (label (acc ++ chunk)) with
    | Some message => mkRun (Raise (MarkupError message)) [] w
    | None => mkRun (Return (acc ++ chunk)) [LiveUpdate (Rendered (label (acc ++ chunk)))] w
    end.
Proof.
  unfold stream_step, bind. rewrite live_update_run.
  now destruct (Markup.render_error _ _).
Qed.

(** The streaming loop: it goes through the fragments up to the first
    update that does not render, if there is one, and the [MarkupError]
    of that update ends it. *)
Lemma stream_loop (fragments : list string) (ending : Stream) (acc : string) (w : World) :
  for_chunks (stream_of fragments ending) stream_step acc w
  = match failed_update (console w) acc fragments with
    | None =>
        let r := for_chunks ending stream_step (acc ++ PyStr.join fragments) w in
        mkRun (outcome r) (updates_from acc fragments ++ events r) (world r)
    | Some (k, message) =>
        mkRun (Raise (MarkupError message)) (updates_from acc (firstn k fragments)) w
    end.
Proof.
  revert acc. induction fragments as [|f fs IH]; intros acc.
  - cbn. rewrite append_empty_r. symmetry. apply run_eta.
  - cbn [stream_of fold_right for_chunks failed_update]. unfold bind.
    rewrite stream_step_run.
    destruct (Markup.render_error _ _) as [message|]; [reflexivity|].
    cbn [outcome world events]. fold (stream_of fs ending). rewrite IH.
    destruct (failed_update _ _ fs) as [[k message]|]; [reflexivity|].
    cbn. now rewrite append_assoc.
Qed.

Lemma label_app (s t : string) : label (s ++ t) = label s ++ t.
Proof. unfold label. now rewrite append_assoc. Qed.

(** When the whole text renders behind the label, so did every update on
    the way to it. *)
Lemma failed_update_renders (w : World) (fragments : list string) :
  forall acc,
    renders w (label (acc ++ PyStr.join fragments)) ->
    failed_update (console w) acc fragments = None.
Proof.
  induction fragments as [|f fs IH]; intros acc Hall; [reflexivity|].
  cbn [failed_update]. change (PyStr.join (f :: fs)) with (f ++ PyStr.join fs) in Hall.
  rewrite <- append_assoc in Hall.
  assert (Hf : renders w (label (acc ++ f))).
  { rewrite label_app in Hall. exact (renders_prefix w _ _ Hall). }
  rewrite Hf. now rewrite (IH (acc ++ f) Hall).
Qed.

(** The request and the loop, inside the [with] block of a renderer. *)
Lemma search_loop {S : Type} g search call (step : S -> string -> M S) (acc : S) w :
  g_perform_search g = Some search ->
  bind (call_perform_search g call) (fun stream => for_chunks stream step acc) w
  = let r := for_chunks (search call) step acc w in
    mkRun (outcome r) (SearchRequest call :: events r) (world r).
Proof.
  intros Hg. unfold call_perform_search. rewrite Hg. reflexivity.
Qed.

(** The streaming renderer on a stream whose fragments are followed by
    [ending]: the display opens, the request goes out, one update per
    fragment as long as the updates render, then whatever [ending] does,
    and the display is stopped. *)
Lemma handle_streaming_search_run g search query args payload fragments ending w :
  g_perform_search g = Some search ->
  search (search_call query args true payload) = stream_of fragments ending ->
  handle_streaming_search g query args payload w
  = match failed_update (console w) EmptyString fragments with
    | None =>
        let r := for_chunks ending stream_step (PyStr.join fragments) w in
        mkRun (outcome r)
              (LiveStart (Rendered EmptyString) false
                 :: SearchRequest (search_call query args true payload)
                 :: updates_from EmptyString fragments ++ events r ++ [LiveStop])
              (world r)
    | Some (k, message) =>
        mkRun (Raise (MarkupError message))
              (LiveStart (Rendered EmptyString) false
                 :: SearchRequest (search_call query args true payload)
                 :: updates_from EmptyString (firstn k fragments) ++ [LiveStop])
              w
    end.
Proof.
  intros Hg Hs. unfold handle_streaming_search, with_live.
  fold (search_call query args true payload).
  rewrite search_loop with (search := search) by exact Hg.
  rewrite Hs, stream_loop.
  destruct (failed_update _ _ _) as [[k message]|]; cbn; [reflexivity|].
  now rewrite <- app_assoc.
Qed.

(** The buffered renderer: banner, screen clearing, the spinner around the
    request, whatever [ending] does, and, if the stream ends well, the one
    print, which raises when the text does not render. *)
Lemma handle_no_stream_search_run g search query args payload fragments ending w :
  g_perform_search g = Some search ->
  search (search_call query args false payload) = stream_of fragments ending ->
  handle_no_stream_search g query args payload w
  = let r := for_chunks ending buffer_step fragments w in
    let shown := ConsolePrint "[cyan]About to clear screen in no_stream mode...[/cyan]"
                   :: clearing w
                   ++ LiveStart (Spinner "dots" "Searching...") true
                   :: SearchRequest (search_call query args false payload)
                   :: events r ++ [LiveStop] in
    match outcome r with
    | Return buffer =>
        match Markup.render_error (console w) (label (PyStr.join buffer)) with
        | None =>
            mkRun (Return (PyStr.join buffer))
                  (shown ++ [ConsolePrint (label (PyStr.join buffer))]) w
        | Some message => mkRun (Raise (MarkupError message)) shown w
        end
    | Raise e => mkRun (Raise e) shown w
    end.
Proof.
  intros Hg Hs. unfold handle_no_stream_search.
  fold (search_call query args false payload).
  erewrite bind_run by (apply console_print_renders; auto with markup).
  erewrite bind_run by apply clear_new_area_run.
  match goal with |- context [bind (with_live ?s ?t ?b) ?k w] =>
    set (block := bind (with_live s t b) k w) end.
  assert (Hblock : block =
            let r := for_chunks ending buffer_step fragments w in
            let live := LiveStart (Spinner "dots" "Searching...") true
                          :: SearchRequest (search_call query args false payload)
                          :: events r ++ [LiveStop] in
            match outcome r with
            | Return buffer =>
                match Markup.render_error (console w) (label (PyStr.join buffer)) with
                | None =>
                    mkRun (Return (PyStr.join buffer))
                          (live ++ [ConsolePrint (label (PyStr.join buffer))]) w
                | Some message => mkRun (Raise (MarkupError message)) live w
                end
            | Raise e => mkRun (Raise e) live w
            end).
  { subst block. unfold bind at 1, with_live.
    rewrite search_loop with (search := search) by exact Hg.
    rewrite Hs, buffer_loop. cbn [app].
    pose proof (keeps_for_chunks ending buffer_step keeps_buffer_step fragments w) as Hw.
    destruct (for_chunks ending buffer_step fragments w) as [[buffer|e] evs w'];
      cbn in Hw; subst w'; cbn [outcome events world]; cbv zeta; [|reflexivity].
    unfold bind. rewrite console_print_run.
    destruct (Markup.render_error _ _) as [message|]; cbn; f_equal; same_events. }
  rewrite Hblock. cbv zeta.
  destruct (outcome (for_chunks ending buffer_step fragments w)) as [buffer|e];
    [destruct (Markup.render_error _ _) as [message|]|]; cbn; f_equal; same_events.
Qed.

Lemma clearing_no_error_marker (w : World) :
  existsb is_error_marker (clearing w) = false.
Proof.
  rewrite clearing_events. cbn.
  destruct (match terminal w with Some (h, _) => h | None => 24 end); reflexivity.
Qed.

Lemma updates_no_error_marker (acc : string) (fragments : list string) :
  existsb is_error_marker (updates_from acc fragments) = false.
Proof.
  revert acc. induction fragments as [|f fs IH]; intros acc; cbn; [reflexivity | apply IH].
Qed.

(** ** What the display shows in the end *)

Lemma last_frame_snoc (frames : list Renderable) (r : Renderable) :
  last_frame (frames ++ [r]) = Some r.
Proof.
  induction frames as [|x frames IH]; [reflexivity|].
  cbn [app last_frame]. destruct (frames ++ [r])%list eqn:E; [|exact IH].
  now destruct frames.
Qed.

(** Whatever the ticks, the last frame painted is the renderable held when
    the display stops. *)
Lemma paint_ends_with_held (fragments : list string) :
  forall ticks acc held,
    exists frames,
      paint ticks (updates_from acc fragments ++ [LiveStop]) held
      = (frames ++ [match fragments with
                    | [] => held
                    | _ => Rendered (label (acc ++ PyStr.join fragments))
                    end])%list.
Proof.
  induction fragments as [|f fs IH]; intros ticks acc held.
  - exists []. reflexivity.
  - assert (Hfinal : match fs with
                     | [] => Rendered (label (acc ++ f))
                     | _ => Rendered (label ((acc ++ f) ++ PyStr.join fs))
                     end = Rendered (label (acc ++ PyStr.join (f :: fs)))).
    { destruct fs; cbn.
      - now rewrite append_empty_r.
      - now rewrite append_assoc. }
    cbn [updates_from app paint].
    destruct ticks as [|[] ticks'].
    + destruct (IH [] (acc ++ f) (Rendered (label (acc ++ f)))) as [frames Hf].
      exists frames. now rewrite Hf, Hfinal.
    + destruct (IH ticks' (acc ++ f) (Rendered (label (acc ++ f)))) as [frames Hf].
      exists (Rendered (label (acc ++ f)) :: frames). now rewrite Hf, Hfinal.
    + destruct (IH ticks' (acc ++ f) (Rendered (label (acc ++ f)))) as [frames Hf].
      exists frames. now rewrite Hf, Hfinal.
Qed.

(** ** The buffered renderer *)

(** When the text renders behind its label, the buffered renderer returns
    the concatenation of the fragments.  Until the sequence is consumed it
    shows nothing of them: after its banner and the screen clearing there
    is only the transient spinner around the one request, and the text is
    printed once, after the spinner has gone. *)
Lemma buffered_render_of_text
    (g : Globals) (search : SearchCall -> Stream) (query : string) (args : Args)
    (payload : Payload) (fragments : list string) (w : World) :
  g_perform_search g = Some search ->
  search (search_call query args false payload) = stream_of fragments Exhausted ->
  renders w (label (PyStr.join fragments)) ->
  handle_no_stream_search g query args payload w
  = mkRun (Return (PyStr.join fragments))
          (ConsolePrint "[cyan]About to clear screen in no_stream mode...[/cyan]"
             :: clearing w
             ++ [ LiveStart (Spinner "dots" "Searching...") true;
                  SearchRequest (search_call query args false payload);
                  LiveStop;
                  ConsolePrint (label (PyStr.join fragments)) ])%list
          w.
Proof.
  intros Hg Hs Hr.
  rewrite (handle_no_stream_search_run g search query args payload fragments Exhausted w Hg Hs).
  cbn. rewrite Hr. f_equal. same_events.
Qed.

(** C5 on the code. The buffered renderer prints the text it is about to
    return as console markup.  For a fragment sequence whose
    concatenation, behind the label, is not well-formed markup, that print
    raises [MarkupError]: the renderer returns nothing, and of the
    fragments nothing is shown, the banner, the screen clearing and the
    spinner having come and gone. *)
Theorem buffered_render_raises_markup_error
    (g : Globals) (search : SearchCall -> Stream) (query : string) (args : Args)
    (payload : Payload) (fragments : list string) (w : World) (message : string) :
  g_perform_search g = Some search ->
  search (search_call query args false payload) = stream_of fragments Exhausted ->
  Markup.render_error (console w) (label (PyStr.join fragments)) = Some message ->
  handle_no_stream_search g query args payload w
  = mkRun (Raise (MarkupError message))
          (ConsolePrint "[cyan]About to clear screen in no_stream mode...[/cyan]"
             :: clearing w
             ++ [ LiveStart (Spinner "dots" "Searching...") true;
                  SearchRequest (search_call query args false payload);
                  LiveStop ])%list
          w.
Proof.
  intros Hg Hs Hr.
  rewrite (handle_no_stream_search_run g search query args payload fragments Exhausted w Hg Hs).
  cbn. now rewrite Hr.
Qed.

Lemma buffered_render_raises_markup_error_witness :
  handle_no_stream_search (sample_globals (stream_of ["Hello"; "[/b]"] Exhausted))
    "q" sample_args sample_payload sample_world
  = mkRun (Raise (MarkupError
                    "closing tag '[/b]' at position 17 doesn't match any open tag"))
          (ConsolePrint "[cyan]About to clear screen in no_stream mode...[/cyan]"
             :: clearing sample_world
             ++ [ LiveStart (Spinner "dots" "Searching...") true;
                  SearchRequest (search_call "q" sample_args false sample_payload);
                  LiveStop ])%list
          sample_world.
Proof.
  apply (buffered_render_raises_markup_error
           (sample_globals (stream_of ["Hello"; "[/b]"] Exhausted))
           (fun _ => stream_of ["Hello"; "[/b]"] Exhausted)
           "q" sample_args sample_payload ["Hello"; "[/b]"] sample_world);
    reflexivity.
Defined.

(** ** The streaming renderer *)




(** ** A transport error in mid-stream *)

(** C2 on the code. When the fragment sequence ends in a transport error,
    neither renderer returns the partial text and neither puts an error
    marker on the display.  The buffered renderer lets the transport error
    through to its caller; so does the streaming renderer, unless one of
    its updates did not render, in which case it has raised the
    [MarkupError] of that update before. *)
Theorem renderers_raise_transport_error
    (os_environ_get : option (string -> option string))
    (build : option (string -> string -> bool -> bool -> Payload))
    (parsed : option Args)
    (fragments : list string) (msg : string) (query : string) (args : Args)
    (payload : Payload) (w : World) :
  let failing := stream_of fragments (Fails (TransportError msg)) in
  let g := mkGlobals os_environ_get build (Some (fun _ => failing)) parsed in
  let streaming := handle_streaming_search g query args payload w in
  let buffered := handle_no_stream_search g query args payload w in
  outcome streaming
  = Raise (match failed_update (console w) EmptyString fragments with
           | None => TransportError msg
           | Some (_, message) => MarkupError message
           end)
  /\ existsb is_error_marker (events streaming) = false
  /\ outcome buffered = Raise (TransportError msg)
  /\ existsb is_error_marker (events buffered) = false.
Proof.
  intros failing g streaming buffered. subst streaming buffered.
  rewrite (handle_streaming_search_run g (fun _ => failing) query args payload
             fragments (Fails (TransportError msg)) w eq_refl eq_refl).
  rewrite (handle_no_stream_search_run g (fun _ => failing) query args payload
             fragments (Fails (TransportError msg)) w eq_refl eq_refl).
  destruct (failed_update _ _ _) as [[k message]|]; cbn; repeat split;
    rewrite existsb_app, ?updates_no_error_marker, ?clearing_no_error_marker; reflexivity.
Qed.

(** The failing input of C2: after ["Hello"] the stream fails, and the
    streaming renderer raises instead of returning ["Hello"]. *)
Example hello_then_failure_is_raised :
  let g := sample_globals (stream_of ["Hello"] (Fails (TransportError "boom"))) in
  handle_streaming_search g "q" sample_args sample_payload sample_world
  = mkRun (Raise (TransportError "boom"))
          [ LiveStart (Rendered EmptyString) false;
            SearchRequest (search_call "q" sample_args true sample_payload);
            LiveUpdate (Rendered "Perplexity: Hello");
            LiveStop ]
          sample_world.
Proof. reflexivity. Qed.

(** ** Reporting an error *)

(** The handlers print the error as console markup first: when the line
    does not render nothing is shown, standard error is not written, and
    the [MarkupError] leaves the handler. *)
Lemma report_error_run (e : Exn) (w : World) :
  report_error e w
  = match Markup.render_error (console w) (error_line e) with
    | None => mkRun (Return tt) (reported e) w
    | Some message => mkRun (Raise (MarkupError message)) [] w
    end.
Proof.
  unfold report_error, bind. rewrite console_print_run.
  now destruct (Markup.render_error _ _).
Qed.

Lemma report_error_renders (e : Exn) (w : World) :
  renders w (error_line e) -> report_error e w = mkRun (Return tt) (reported e) w.
Proof. intros H. rewrite report_error_run. now rewrite H. Qed.

(** ** The unbound names *)

Lemma clearing_no_search_request (w : World) :
  existsb is_search_request (clearing w) = false.
Proof. now rewrite clearing_events. Qed.

(** The claim C4 as it is written fails for [main]: the [NameError] is
    caught by the handler of [main] itself, and what leaves [main] is
    [SystemExit(1)]. *)
Lemma main_exits_counterexample :
  let p := main core_globals sample_checker [] sample_world in
  outcome (p_run p) = Raise (SystemExit 1)
  /\ ~ (exists name, outcome (p_run p) = Raise (NameError name)).
Proof.
  split; [reflexivity|]. intros [name H]. discriminate H.
Qed.

(** C4, amended. In the namespace [core.py] sets up, every call of
    [handle_search] and of [handle_no_stream_search] raises [NameError]
    before any search request is issued; every call of [main] meets the
    [NameError] of [parse_arguments] at once, its handler reports it on the
    console and on standard error, and [main] ends with [SystemExit(1)]
    without having read input or issued a request; and importing the
    package fails, because [core] has no name [perform_search] to give. *)
Theorem unbound_names_stop_every_entry_point
    (query : string) (args : Args) (context : option Context) (payload : Payload)
    (checker : UpdateChecker) (stdin : list Input) (w : World) :
  handle_search core_globals query args context w
  = mkRun (Raise (NameError (if no_stream args then "_build_api_payload" else "os"))) [] w
  /\ (let r := handle_no_stream_search core_globals query args payload w in
      outcome r = Raise (NameError "perform_search")
      /\ existsb is_search_request (events r) = false)
  /\ main core_globals checker stdin w
     = mkProcess (mkRun (Raise (SystemExit 1)) (reported (NameError "parse_arguments")) w)
                 stdin
  /\ import_package = Raise (ImportError "perform_search" "plexsearch.core").
Proof.
  repeat split.
  - unfold handle_search. destruct (no_stream args); reflexivity.
  - unfold handle_no_stream_search.
    erewrite bind_run by (apply console_print_renders; auto with markup).
    erewrite bind_run by apply clear_new_area_run.
    reflexivity.
  - unfold handle_no_stream_search.
    erewrite bind_run by (apply console_print_renders; auto with markup).
    erewrite bind_run by apply clear_new_area_run.
    cbn. rewrite existsb_app, clearing_no_search_request. reflexivity.
  - unfold main, ptry_except, pbind, lift.
    cbn [core_globals g_parse_arguments lookup_global raise p_run p_stdin outcome events
         world is_Exception app].
    erewrite bind_run
      by (apply report_error_renders, renders_error_line; reflexivity).
    reflexivity.
Qed.

(** ** Letter cases of [exit] *)

Ltac each_char c := destruct c as [[] [] [] [] [] [] [] []].

Lemma lower_char_e c : PyStr.lower_char c = "e"%char -> c = "e"%char \/ c = "E"%char.
Proof. each_char c; vm_compute; intros H; try discriminate H; auto. Qed.

Lemma lower_char_x c : PyStr.lower_char c = "x"%char -> c = "x"%char \/ c = "X"%char.
Proof. each_char c; vm_compute; intros H; try discriminate H; auto. Qed.

Lemma lower_char_i c : PyStr.lower_char c = "i"%char -> c = "i"%char \/ c = "I"%char.
Proof. each_char c; vm_compute; intros H; try discriminate H; auto. Qed.

Lemma lower_char_t c : PyStr.lower_char c = "t"%char -> c = "t"%char \/ c = "T"%char.
Proof. each_char c; vm_compute; intros H; try discriminate H; auto. Qed.

(** [user_input.lower() == "exit"] holds of the sixteen spellings of
    [exit] in upper- and lower-case letters and of nothing else. *)
Lemma lower_is_exit (s : string) :
  PyStr.lower s = "exit" <-> In s (letter_cases "exit").
Proof.
  split.
  - destruct s as [|c1 [|c2 [|c3 [|c4 [|c5 s]]]]]; cbn [PyStr.lower]; intros H;
      try discriminate H.
    injection H as H1 H2 H3 H4.
    destruct (lower_char_e _ H1), (lower_char_x _ H2), (lower_char_i _ H3),
      (lower_char_t _ H4); subst; vm_compute; tauto.
  - intros H. vm_compute in H.
    repeat (destruct H as [H|H]; [subst s; reflexivity|]). contradiction.
Qed.

(** ** Blank input *)

Lemma lstrip_whitespace (s : string) :
  whitespace_only s = true -> PyStr.lstrip s = EmptyString.
Proof.
  induction s as [|c s IH]; cbn; [reflexivity|].
  destruct (PyStr.isspace c); cbn; [exact IH | discriminate].
Qed.

Lemma rstrip_keeps_first (c : ascii) (s : string) :
  PyStr.isspace c = false -> PyStr.is_empty (PyStr.rstrip (String c s)) = false.
Proof.
  intros Hc. cbn. destruct (PyStr.rstrip s); [now rewrite Hc | reflexivity].
Qed.

Lemma lstrip_not_whitespace (s : string) :
  whitespace_only s = false ->
  exists c s', PyStr.lstrip s = String c s' /\ PyStr.isspace c = false.
Proof.
  induction s as [|c s IH]; cbn; [discriminate|].
  destruct (PyStr.isspace c) eqn:Hc; cbn; [exact IH|].
  intros _. now exists c, s.
Qed.

(** [user_input.strip() == ""] is the test for empty or whitespace-only
    input. *)
Lemma blank_whitespace_only (s : string) : blank s = whitespace_only s.
Proof.
  unfold blank, PyStr.strip. destruct (whitespace_only s) eqn:Hs.
  - now rewrite lstrip_whitespace.
  - destruct (lstrip_not_whitespace s Hs) as (c & s' & -> & Hc).
    now apply rstrip_keeps_first.
Qed.

Lemma exit_not_blank (s : string) : In s (letter_cases "exit") -> blank s = false.
Proof.
  intros H. vm_compute in H.
  repeat (destruct H as [H|H]; [subst s; reflexivity|]). contradiction.
Qed.

(** ** One iteration of the interactive loop *)

Lemma after_after (evs evs' : list Event) (s : Session) :
  after evs (after evs' s) = after (evs ++ evs') s.
Proof. unfold after. cbn. now rewrite app_assoc. Qed.

Lemma session_bind_run {A} (m : M A) context stdin (k : A -> World -> Session)
    (w w' : World) (a : A) (evs : list Event) :
  m w = mkRun (Return a) evs w' ->
  session_bind m context stdin k w = after evs (k a w').
Proof. intros H. unfold session_bind. now rewrite H. Qed.

Lemma prompt_then_print (s : string) (w : World) :
  renders w s ->
  (console_prompt prompt ;;; console_print s) w
  = mkRun (Return tt) [ConsolePrompt prompt; ConsolePrint s] w.
Proof.
  intros H. erewrite bind_run by (apply console_prompt_renders; auto with markup).
  now rewrite console_print_renders.
Qed.

Lemma prompt_then_clear (w : World) :
  (console_prompt prompt ;;; clear_new_area) w
  = mkRun (Return tt) (ConsolePrompt prompt :: clearing w) w.
Proof.
  erewrite bind_run by (apply console_prompt_renders; auto with markup).
  now rewrite clear_new_area_run.
Qed.

(** At end of input the prompt is shown and [console.input] raises. *)
Lemma loop_eof g args context w :
  interactive_loop g args [] context w
  = mkSession (mkRun (Raise EOFError) [ConsolePrompt prompt] w) context [].
Proof.
  cbn [interactive_loop].
  now erewrite bind_run by (apply console_prompt_renders; auto with markup).
Qed.

(** SIGINT while [console.input] waits for a line. *)
Lemma loop_sigint g args rest context w :
  interactive_loop g args (Sigint :: rest) context w
  = mkSession (mkRun (outcome (@deliver_sigint unit w))
                     (ConsolePrompt prompt :: events (@deliver_sigint unit w))
                     (world (@deliver_sigint unit w)))
              context rest.
Proof.
  cbn [interactive_loop].
  now erewrite bind_run by (apply console_prompt_renders; auto with markup).
Qed.

Lemma loop_blank g args user_input rest context w :
  blank user_input = true ->
  interactive_loop g args (Line user_input :: rest) context w
  = after [ ConsolePrompt prompt;
            ConsolePrint "[yellow]Please enter a query or type 'exit' to quit.[/yellow]" ]
          (interactive_loop g args rest context w).
Proof.
  intros Hblank. cbn [interactive_loop]. fold (blank user_input). rewrite Hblank.
  now erewrite session_bind_run by (apply prompt_then_print; auto with markup).
Qed.

Lemma loop_exit g args user_input rest context w :
  blank user_input = false ->
  PyStr.lower user_input = "exit" ->
  interactive_loop g args (Line user_input :: rest) context w
  = mkSession (mkRun (Return tt)
                     [ ConsolePrompt prompt;
                       ConsolePrint "[yellow]Exiting interactive mode.[/yellow]" ] w)
              context rest.
Proof.
  intros Hblank Hexit. cbn [interactive_loop]. fold (blank user_input).
  rewrite Hblank, Hexit. cbn [String.eqb Ascii.eqb Bool.eqb].
  now rewrite prompt_then_print by auto with markup.
Qed.

(** The iteration for an input that is neither blank nor [exit]: the user
    Turn is appended, [handle_search] runs on the grown context, and what
    happens next depends on how it ends.  An exception of it is reported
    and the loop goes on, unless the report itself does not render: then
    the [MarkupError] of the report ends the loop. *)
Lemma loop_submits g args user_input rest context w :
  blank user_input = false ->
  PyStr.lower user_input <> "exit" ->
  let asked := (context ++ [user_turn user_input])%list in
  let r := handle_search g user_input args (Some asked) w in
  let shown := (ConsolePrompt prompt :: clearing w ++ events r)%list in
  interactive_loop g args (Line user_input :: rest) context w
  = match outcome r with
    | Return reply =>
        after shown
              (interactive_loop g args rest (asked ++ [assistant_turn reply])%list w)
    | Raise e =>
        if is_Exception e
        then match Markup.render_error (console w) (error_line e) with
             | None => after (shown ++ reported e)%list (interactive_loop g args rest asked w)
             | Some message =>
                 mkSession (mkRun (Raise (MarkupError message)) shown w) asked rest
             end
        else mkSession (mkRun (Raise e) shown w) asked rest
    end.
Proof.
  intros Hblank Hexit asked r shown. subst asked r shown.
  cbn [interactive_loop]. fold (blank user_input). rewrite Hblank.
  destruct (String.eqb_spec (PyStr.lower user_input) "exit") as [E|_]; [contradiction|].
  erewrite session_bind_run by apply prompt_then_clear.
  set (r := handle_search g user_input args _ w).
  pose proof (keeps_handle_search g user_input args
                (Some (context ++ [user_turn user_input])%list) w) as Hw.
  fold r in Hw. destruct (outcome r) as [reply|e].
  - rewrite Hw, after_after. reflexivity.
  - destruct (is_Exception e); rewrite Hw.
    + unfold session_bind. rewrite report_error_run.
      destruct (Markup.render_error _ _) as [message|]; cbn [outcome events world].
      * unfold after. cbn. now rewrite app_nil_r.
      * rewrite !after_after. f_equal; same_events.
    + reflexivity.
Qed.

Lemma not_exit (s : string) :
  ~ In s (letter_cases "exit") -> PyStr.lower s <> "exit".
Proof. intros H E. now apply H, lower_is_exit. Qed.

#[local] Arguments handle_no_stream_search : simpl never.
#[local] Arguments handle_streaming_search : simpl never.

(** What [handle_search] returns is what the renderer it chose returned. *)
Lemma handle_search_is_renderer g query args context w reply :
  outcome (handle_search g query args context w) = Return reply ->
  exists payload,
    outcome ((if no_stream args || env_is (match g_os_environ_get g with
                                           | Some get => get "OR_APP_NAME"
                                           | None => None
                                           end) "Aider"
              then handle_no_stream_search g query args payload
              else handle_streaming_search g query args payload) w)
    = Return reply.
Proof.
  unfold handle_search. destruct g as [os build search parsed]; cbn.
  destruct (no_stream args); cbn.
  - destruct build as [build|]; cbn; [|discriminate].
    intros H. eexists. exact H.
  - destruct os as [get|]; cbn; [|discriminate].
    destruct build as [build|]; cbn; [|discriminate].
    intros H. eexists. exact H.
Qed.

(** ** The interactive loop *)

(** C7. In the interactive loop an input that is [exit] in any letter case
    ends the loop with the context as it was; an empty or whitespace-only
    input is not submitted, a hint is shown and the loop prompts again; any
    other input is submitted: its user Turn is appended and [handle_search]
    runs on it. *)
Theorem interactive_loop_dispatch
    (g : Globals) (args : Args) (user_input : string) (rest : list Input)
    (context : Context) (w : World) :
  (In user_input (letter_cases "exit") ->
   interactive_loop g args (Line user_input :: rest) context w
   = mkSession (mkRun (Return tt)
                      [ ConsolePrompt prompt;
                        ConsolePrint "[yellow]Exiting interactive mode.[/yellow]" ] w)
               context rest)
  /\ (whitespace_only user_input = true ->
      interactive_loop g args (Line user_input :: rest) context w
      = after [ ConsolePrompt prompt;
                ConsolePrint "[yellow]Please enter a query or type 'exit' to quit.[/yellow]" ]
              (interactive_loop g args rest context w))
  /\ (whitespace_only user_input = false ->
      ~ In user_input (letter_cases "exit") ->
      let asked := (context ++ [user_turn user_input])%list in
      let r := handle_search g user_input args (Some asked) w in
      let shown := (ConsolePrompt prompt :: clearing w ++ events r)%list in
      interactive_loop g args (Line user_input :: rest) context w
      = match outcome r with
        | Return reply =>
            after shown
                  (interactive_loop g args rest (asked ++ [assistant_turn reply])%list w)
        | Raise e =>
            if is_Exception e
            then match Markup.render_error (console w) (error_line e) with
                 | None =>
                     after (shown ++ reported e)%list (interactive_loop g args rest asked w)
                 | Some message =>
                     mkSession (mkRun (Raise (MarkupError message)) shown w) asked rest
                 end
            else mkSession (mkRun (Raise e) shown w) asked rest
        end).
Proof.
  repeat split.
  - intros Hexit. apply loop_exit; [now apply exit_not_blank | now apply lower_is_exit].
  - intros Hblank. apply loop_blank. now rewrite blank_whitespace_only.
  - intros Hblank Hexit. apply loop_submits.
    + now rewrite blank_whitespace_only.
    + now apply not_exit.
Qed.

Lemma interactive_loop_dispatch_witness :
  let g := sample_globals (stream_of ["Hello"] Exhausted) in
  interactive_loop g sample_args [Line "ExIt"; Line "more"] [] sample_world
  = mkSession (mkRun (Return tt)
                     [ ConsolePrompt prompt;
                       ConsolePrint "[yellow]Exiting interactive mode.[/yellow]" ]
                     sample_world)
              [] [Line "more"]
  /\ interactive_loop g sample_args [Line "   "; Line "exit"] [] sample_world
     = after [ ConsolePrompt prompt;
               ConsolePrint "[yellow]Please enter a query or type 'exit' to quit.[/yellow]" ]
             (interactive_loop g sample_args [Line "exit"] [] sample_world)
  /\ s_context (interactive_loop g sample_args [Line "hi"; Line "exit"] [] sample_world)
     = [user_turn "hi"; assistant_turn "Hello"].
Proof.
  intros g. split; [|split].
  - apply (interactive_loop_dispatch g sample_args "ExIt" [Line "more"] [] sample_world).
    vm_compute. tauto.
  - apply (interactive_loop_dispatch g sample_args "   " [Line "exit"] [] sample_world).
    reflexivity.
  - assert (Hhi : ~ In "hi" (letter_cases "exit")) by (vm_compute; intuition discriminate).
    destruct (interactive_loop_dispatch g sample_args "hi" [Line "exit"] [] sample_world)
      as (_ & _ & H).
    rewrite H; [reflexivity | reflexivity | exact Hhi].
Defined.




(** C3. A successful round trip for a query the loop submits appends
    exactly two Turns, a user Turn with the query and then an assistant
    Turn with the text [handle_search] got back from its renderer: the
    loop goes on from the context grown by these two, which for an empty
    initial context is just the two of them. *)
Theorem successful_round_trip_appends_two_turns
    (g : Globals) (args : Args) (user_query : string) (rest : list Input)
    (context : Context) (w : World) (reply : string) :
  whitespace_only user_query = false ->
  ~ In user_query (letter_cases "exit") ->
  let r := handle_search g user_query args (Some (context ++ [user_turn user_query])%list) w in
  outcome r = Return reply ->
  interactive_loop g args (Line user_query :: rest) context w
  = after (ConsolePrompt prompt :: clearing w ++ events r)%list
          (interactive_loop g args rest
             (context ++ [mkTurn User user_query; mkTurn Assistant reply])%list w).
Proof.
  intros Hblank Hexit r Hr.
  rewrite loop_submits
    by (rewrite ?blank_whitespace_only; auto using not_exit).
  fold r. rewrite Hr, <- app_assoc. reflexivity.
Qed.

Lemma successful_round_trip_appends_two_turns_witness :
  let g := sample_globals (stream_of ["Hello"; " World"] Exhausted) in
  let r := handle_search g "hi" sample_args (Some [user_turn "hi"]) sample_world in
  interactive_loop g sample_args [Line "hi"; Line "exit"] [] sample_world
  = after (ConsolePrompt prompt :: clearing sample_world ++ events r)%list
          (interactive_loop g sample_args [Line "exit"]
             [mkTurn User "hi"; mkTurn Assistant "Hello World"] sample_world).
Proof.
  intros g r.
  apply (successful_round_trip_appends_two_turns
           g sample_args "hi" [Line "exit"] [] sample_world "Hello World").
  - reflexivity.
  - vm_compute. intuition discriminate.
  - reflexivity.
Defined.

(** ** The transcript *)

Lemma format_message_by_role (r : Role) (text : string) :
  _format_message_to_markdown (mkTurn r text)
  = "**" ++ PyStr.capitalize (role_name r) ++ "**: " ++ text ++ PyStr.nl ++ PyStr.nl.
Proof. reflexivity. Qed.

(** C10. [_format_message_to_markdown] on the user Turn with content
    [Hello] gives the capitalized role name between bold marks, a colon,
    the content and a blank line: [**User**: Hello\n\n]. *)
Theorem format_user_hello :
  _format_message_to_markdown (mkTurn User "Hello")
  = "**User**: Hello" ++ PyStr.nl ++ PyStr.nl.
Proof. rewrite format_message_by_role. reflexivity. Qed.

(** ** The line log *)

Import Json.

Lemma parse_chars_escape_char (c : ascii) (s : string) :
  parse_chars (escape_char c ++ s) = push c (parse_chars s).
Proof. each_char c; reflexivity. Qed.

Lemma parse_chars_escape (s rest : string) :
  parse_chars (escape s ++ PyStr.dquote ++ rest) = Some (s, rest).
Proof.
  induction s as [|c s IH]; [reflexivity|].
  cbn [escape]. rewrite append_assoc, parse_chars_escape_char, IH. reflexivity.
Qed.

(** Decoding undoes encoding, whatever follows the closing quote. *)
Lemma parse_string_dumps (s rest : string) :
  parse_string (dumps_str s ++ rest) = Some (s, rest).
Proof.
  unfold dumps_str. rewrite !append_assoc. cbn -[parse_chars escape].
  apply parse_chars_escape.
Qed.

Lemma expect_colon (s : string) : expect 58 (": " ++ s) = Some (" " ++ s).
Proof. reflexivity. Qed.

Lemma parse_string_space (s : string) : parse_string (" " ++ s) = parse_string s.
Proof. reflexivity. Qed.

Lemma parse_members_space (fuel : nat) (s : string) :
  parse_members fuel (" " ++ s) = parse_members fuel s.
Proof. destruct fuel; [reflexivity|]. cbn [parse_members]. now rewrite parse_string_space. Qed.

(** A member that is followed by another one. *)
Lemma parse_member_more (fuel : nat) (key value more : string) :
  parse_members (S fuel) (dumps_str key ++ ": " ++ dumps_str value ++ ", " ++ more)
  = obind (parse_members fuel more)
          (fun found => Some ((key, value) :: fst found, snd found)).
Proof.
  cbn [parse_members]. rewrite parse_string_dumps. cbn [obind].
  rewrite expect_colon. cbn [obind].
  rewrite parse_string_space, parse_string_dumps. cbn [obind].
  change (skip_ws (", " ++ more)) with (String "," (" " ++ more)).
  cbv iota. change (is_char 44 ",") with true. cbv iota.
  rewrite parse_members_space. now destruct (parse_members fuel more) as [[ms r]|].
Qed.

(** The last member of an object. *)
Lemma parse_member_last (fuel : nat) (key value rest : string) :
  parse_members (S fuel) (dumps_str key ++ ": " ++ dumps_str value ++ "}" ++ rest)
  = Some ([(key, value)], rest).
Proof.
  cbn [parse_members]. rewrite parse_string_dumps. cbn [obind].
  rewrite expect_colon. cbn [obind].
  rewrite parse_string_space, parse_string_dumps. reflexivity.
Qed.

Lemma parse_object_dumps (t : Turn) (rest : string) :
  parse_object (dumps_turn t ++ rest)
  = Some ([("role", role_name (role t)); ("content", content t)], rest).
Proof.
  unfold dumps_turn. rewrite !append_assoc.
  set (members := dumps_str "role" ++ _).
  change (parse_object ("{" ++ members))
    with (parse_members (String.length members) members).
  assert (Hfuel : exists fuel, String.length members = S (S fuel))
    by (eexists; reflexivity).
  destruct Hfuel as [fuel ->]. subst members.
  rewrite parse_member_more, parse_member_last. reflexivity.
Qed.

Lemma turn_of_dict_members (t : Turn) :
  turn_of_dict [("role", role_name (role t)); ("content", content t)] = Some t.
Proof. destruct t as [[] text]; reflexivity. Qed.

(** One line of the log parses back to the Turn it was written for. *)
Lemma loads_turn_dumps (t : Turn) :
  loads_turn (dumps_turn t ++ PyStr.nl) = Some t.
Proof.
  unfold loads_turn, loads. rewrite parse_object_dumps. cbn [obind].
  change (PyStr.is_empty (skip_ws PyStr.nl)) with true. cbv iota. cbn [obind].
  apply turn_of_dict_members.
Qed.

Lemma no_eol_app (s t : string) : no_eol (s ++ t) = no_eol s && no_eol t.
Proof.
  induction s as [|c s IH]; [reflexivity|]. cbn. rewrite IH. now rewrite andb_assoc.
Qed.

Lemma no_eol_escape_char (c : ascii) : no_eol (escape_char c) = true.
Proof. each_char c; reflexivity. Qed.

Lemma no_eol_escape (s : string) : no_eol (escape s) = true.
Proof.
  induction s as [|c s IH]; [reflexivity|].
  change (escape (String c s)) with (escape_char c ++ escape s).
  now rewrite no_eol_app, no_eol_escape_char, IH.
Qed.

(** A serialized Turn stays on one line: line terminators are escaped. *)
Lemma no_eol_dumps_turn (t : Turn) : no_eol (dumps_turn t) = true.
Proof.
  unfold dumps_turn, dumps_str.
  rewrite !no_eol_app, !no_eol_escape. reflexivity.
Qed.

Lemma readlines_first_line (line rest : string) :
  no_eol line = true ->
  readlines (line ++ PyStr.nl ++ rest) = (line ++ PyStr.nl) :: readlines rest.
Proof.
  induction line as [|c line IH]; intros Hline; [reflexivity|].
  cbn in Hline. apply andb_true_iff in Hline as [Hc Hline].
  apply negb_true_iff, orb_false_iff in Hc as [Hlf Hcr].
  cbn [append readlines]. rewrite Hlf, Hcr, (IH Hline). reflexivity.
Qed.

Lemma read_log_text (messages : list Turn) :
  parse_lines (readlines (log_text messages)) = Some messages.
Proof.
  unfold log_text. induction messages as [|t ts IH]; [reflexivity|].
  cbn [map PyStr.join fold_right]. fold (PyStr.join (map (fun m => dumps_turn m ++ PyStr.nl) ts)).
  rewrite append_assoc, readlines_first_line by apply no_eol_dumps_turn.
  cbn [parse_lines]. now rewrite loads_turn_dumps, IH.
Qed.

Lemma log_text_app (first second : list Turn) :
  log_text (first ++ second) = log_text first ++ log_text second.
Proof. unfold log_text. now rewrite map_app, join_app. Qed.

(** C8. Writing any list of Turns to a fresh line log, one JSON record per
    line, and reading the file back with one parse per line gives the same
    Turns in the same order. *)
Theorem log_round_trip (messages : list Turn) (w : World) :
  exists log_file,
    outcome (log_conversation (Writable EmptyString) messages w) = Return log_file
    /\ read_log log_file = Some messages.
Proof.
  exists (Writable (log_text messages)).
  split; [reflexivity|]. apply read_log_text.
Qed.

(** The log is opened in append mode: logging to a log written before adds
    to it, and reading gives the earlier Turns and then the new ones. *)
Lemma log_appends (earlier messages : list Turn) (w : World) :
  exists log_file,
    outcome (log_conversation (Writable (log_text earlier)) messages w) = Return log_file
    /\ read_log log_file = Some (earlier ++ messages)%list.
Proof.
  exists (Writable (log_text (earlier ++ messages))).
  split; [|apply read_log_text].
  cbn. now rewrite log_text_app.
Qed.


(** ** Interrupts *)

Lemma ended_after (pre evs : list Event) :
  existsb is_sigint pre = false -> ended_by_sigint evs -> ended_by_sigint (pre ++ evs).
Proof.
  intros Hpre (before & closing & -> & Hb & Hc).
  exists (pre ++ before)%list, closing. repeat split; [|now rewrite existsb_app, Hpre|exact Hc].
  now rewrite app_assoc.
Qed.

Lemma ended_then_stop (evs : list Event) :
  ended_by_sigint evs -> ended_by_sigint (evs ++ [LiveStop]).
Proof.
  intros (before & closing & -> & Hb & Hc).
  exists before, (closing ++ [LiveStop])%list. repeat split; [|exact Hb|].
  - rewrite <- app_assoc. reflexivity.
  - rewrite forallb_app, Hc. reflexivity.
Qed.

Lemma safe_after {A} (pre : list Event) (r : Run A) :
  existsb is_sigint pre = false ->
  sigint_safe r ->
  sigint_safe (mkRun (outcome r) (pre ++ events r) (world r)).
Proof.
  intros Hpre [Hno|[Ho He]]; [left|right]; cbn.
  - now rewrite existsb_app, Hpre.
  - split; [exact Ho | now apply ended_after].
Qed.

(** A run that did not end with [SystemExit(0)] saw no SIGINT. *)
Lemma safe_not_exited {A} (r : Run A) :
  sigint_safe r -> outcome r <> Raise (SystemExit 0) -> existsb is_sigint (events r) = false.
Proof. intros [Hno|[Ho _]] Hne; [exact Hno | contradiction]. Qed.

Lemma safe_raise {A B} (e : Exn) (evs : list Event) (w : World) :
  sigint_safe (mkRun (@Raise A e) evs w) -> sigint_safe (mkRun (@Raise B e) evs w).
Proof.
  intros [Hno|[Ho He]]; [now left | right]. cbn in *. split; [|exact He].
  injection Ho as ->. reflexivity.
Qed.

Lemma handles_ret {A} (a : A) : handles_sigint (ret a).
Proof. intros w Hw. split; [exact Hw | now left]. Qed.

Lemma handles_raise {A} (e : Exn) : handles_sigint (@raise A e).
Proof. intros w Hw. split; [exact Hw | now left]. Qed.

Lemma handles_emit (e : Event) : is_sigint e = false -> handles_sigint (emit e).
Proof. intros He w Hw. split; [exact Hw | left; cbn; now rewrite He]. Qed.

Lemma deliver_sigint_installed {A} (w : World) :
  installed w ->
  @deliver_sigint A w
  = mkRun (Raise (SystemExit 0)) [SigintReceived; ConsolePrint interrupt_message] w.
Proof.
  intros Hw. unfold deliver_sigint. rewrite Hw.
  erewrite bind_run by reflexivity. unfold handle_interrupt.
  erewrite bind_run by (apply console_print_renders; auto with markup).
  reflexivity.
Qed.

(** Without the handler, SIGINT is the [KeyboardInterrupt] of the default
    disposition. *)
Lemma deliver_sigint_default {A} (w : World) :
  sigint w = DefaultInt ->
  @deliver_sigint A w = mkRun (Raise KeyboardInterrupt) [SigintReceived] w.
Proof. intros Hw. unfold deliver_sigint. now rewrite Hw. Qed.

Lemma handles_deliver_sigint {A} : handles_sigint (@deliver_sigint A).
Proof.
  intros w Hw. rewrite deliver_sigint_installed by exact Hw. split; [exact Hw|].
  right. split; [reflexivity|]. now exists [], [].
Qed.

Lemma handles_bind {A B} (m : M A) (k : A -> M B) :
  handles_sigint m -> (forall a, handles_sigint (k a)) -> handles_sigint (bind m k).
Proof.
  intros Hm Hk w Hw. destruct (Hm w Hw) as [Hinst Hsafe]. unfold bind.
  destruct (m w) as [[a|e] evs w'] eqn:Hrun; cbn in *.
  - destruct (Hk a w' Hinst) as [Hinst' Hsafe']. split; [exact Hinst'|].
    apply safe_after; [|exact Hsafe'].
    now apply (safe_not_exited (mkRun (Return a) evs w')).
  - split; [exact Hinst | now apply (safe_raise (A:=A))].
Qed.

Lemma handles_try_except {A} (body : M A) (handler : Exn -> M A) :
  handles_sigint body -> (forall e, handles_sigint (handler e)) ->
  handles_sigint (try_except body handler).
Proof.
  intros Hb Hh w Hw. destruct (Hb w Hw) as [Hinst Hsafe]. unfold try_except.
  destruct (body w) as [[a|e] evs w'] eqn:Hrun; cbn in *.
  - split; [exact Hinst | exact Hsafe].
  - destruct (is_Exception e) eqn:He; [|split; [exact Hinst | exact Hsafe]].
    destruct (Hh e w' Hinst) as [Hinst' Hsafe']. split; [exact Hinst'|].
    apply safe_after; [|exact Hsafe'].
    apply (safe_not_exited (mkRun (@Raise A e) evs w')); [exact Hsafe|].
    intros E. injection E as ->. discriminate He.
Qed.

Lemma handles_with_live {A} shown transient (body : M A) :
  handles_sigint body -> handles_sigint (with_live shown transient body).
Proof.
  intros Hb w Hw. destruct (Hb w Hw) as [Hinst Hsafe]. unfold with_live. cbn.
  split; [exact Hinst|]. destruct Hsafe as [Hno|[Ho He]]; [left|right]; cbn.
  - now rewrite existsb_app, Hno.
  - split; [exact Ho|].
    apply (ended_after [LiveStart shown transient]); [reflexivity|].
    now apply ended_then_stop.
Qed.

Lemma handles_lookup_global {A} name (binding : option A) :
  handles_sigint (lookup_global name binding).
Proof. destruct binding; [apply handles_ret | apply handles_raise]. Qed.

Lemma handles_of_outcome {A} (o : Outcome A) : handles_sigint (of_outcome o).
Proof. destruct o; [apply handles_ret | apply handles_raise]. Qed.

Lemma handles_console_print s : handles_sigint (console_print s).
Proof.
  intros w Hw. rewrite console_print_run.
  destruct (Markup.render_error _ _); (split; [exact Hw | now left]).
Qed.

Lemma handles_console_prompt s : handles_sigint (console_prompt s).
Proof.
  intros w Hw. rewrite console_prompt_run.
  destruct (Markup.render_error _ _); (split; [exact Hw | now left]).
Qed.

Lemma handles_live_update s : handles_sigint (live_update s).
Proof.
  intros w Hw. rewrite live_update_run.
  destruct (Markup.render_error _ _); (split; [exact Hw | now left]).
Qed.

Lemma handles_stderr_print s : handles_sigint (stderr_print s).
Proof. now apply handles_emit. Qed.

Lemma handles_setup_signal_handler : handles_sigint setup_signal_handler.
Proof. intros w Hw. split; [reflexivity | now left]. Qed.

Create HintDb sigint.

#[local] Hint Resolve handles_ret handles_raise handles_deliver_sigint
  handles_lookup_global handles_of_outcome handles_console_print handles_console_prompt
  handles_live_update
  handles_stderr_print handles_setup_signal_handler : sigint.

Ltac handles :=
  repeat first
    [ solve [auto with sigint]
    | apply handles_emit; reflexivity
    | apply handles_bind; [|intros ?]
    | apply handles_with_live
    | apply handles_try_except; [|intros ?] ].

Lemma handles_for_chunks {S : Type} (stream : Stream) (step : S -> string -> M S) :
  (forall acc chunk, handles_sigint (step acc chunk)) ->
  forall acc, handles_sigint (for_chunks stream step acc).
Proof.
  intros Hstep. induction stream as [|chunk rest IH|e|]; intros acc; cbn; handles.
Qed.

Lemma handles_clear_new_area : handles_sigint clear_new_area.
Proof.
  intros w Hw. rewrite clear_new_area_run. split; [exact Hw|]. left.
  cbn. rewrite clearing_events. reflexivity.
Qed.

Lemma handles_call_perform_search g call : handles_sigint (call_perform_search g call).
Proof. unfold call_perform_search. handles. Qed.

Lemma handles_stream_step acc chunk : handles_sigint (stream_step acc chunk).
Proof. unfold stream_step. handles. Qed.

Lemma handles_buffer_step acc chunk : handles_sigint (buffer_step acc chunk).
Proof. unfold buffer_step. handles. Qed.

#[local] Hint Resolve handles_clear_new_area handles_call_perform_search
  handles_stream_step handles_buffer_step : sigint.

Lemma handles_handle_streaming_search g query args payload :
  handles_sigint (handle_streaming_search g query args payload).
Proof.
  unfold handle_streaming_search. handles. apply handles_for_chunks. auto with sigint.
Qed.

Lemma handles_handle_no_stream_search g query args payload :
  handles_sigint (handle_no_stream_search g query args payload).
Proof.
  unfold handle_no_stream_search. handles. apply handles_for_chunks. auto with sigint.
Qed.

#[local] Hint Resolve handles_handle_streaming_search handles_handle_no_stream_search : sigint.

Lemma handles_handle_search g query args context :
  handles_sigint (handle_search g query args context).
Proof.
  unfold handle_search. handles.
  - destruct (no_stream args); handles.
  - match goal with |- handles_sigint (if ?b then _ else _) => destruct b end; handles.
Qed.

Lemma handles_report_error e : handles_sigint (report_error e).
Proof. unfold report_error. handles. Qed.

#[local] Hint Resolve handles_handle_search handles_report_error : sigint.

Lemma clearing_no_sigint (w : World) :
  existsb is_sigint (ConsolePrompt prompt :: clearing w) = false.
Proof. cbn. now rewrite clearing_events. Qed.

(** The loop, run with the handler installed, is ended by any SIGINT that
    comes while it waits for input or for the search. *)
Lemma loop_handles_sigint g args stdin :
  forall context w,
    installed w ->
    let s := interactive_loop g args stdin context w in
    installed (world (s_run s)) /\ sigint_safe (s_run s).
Proof.
  induction stdin as [|[user_input|] rest IH]; intros context w Hw; cbv zeta.
  - (* end of input *)
    rewrite loop_eof. split; [exact Hw | now left].
  - destruct (blank user_input) eqn:Hblank;
      [|destruct (String.eqb_spec (PyStr.lower user_input) "exit") as [Hexit|Hexit]].
    + (* blank input *)
      rewrite loop_blank by exact Hblank.
      destruct (IH context w Hw) as [Hinst Hsafe]. split; [exact Hinst|].
      apply (safe_after [_; _] (s_run _)); [reflexivity | exact Hsafe].
    + (* exit *)
      rewrite loop_exit by assumption.
      split; [exact Hw | now left].
    + (* a query *)
      rewrite loop_submits by assumption.
      set (asked := (context ++ [user_turn user_input])%list).
      destruct (handles_handle_search g user_input args (Some asked) w Hw) as [_ Hsafe].
      set (r := handle_search g user_input args (Some asked) w) in *.
      pose proof (clearing_no_sigint w) as Hclear.
      destruct (outcome r) as [reply|e] eqn:Ho.
      * destruct (IH (asked ++ [assistant_turn reply])%list w Hw) as [Hinst Hs].
        split; [exact Hinst|].
        apply (safe_after _ (s_run _)); [|exact Hs].
        rewrite app_comm_cons, existsb_app, Hclear.
        apply (safe_not_exited r Hsafe). rewrite Ho. discriminate.
      * destruct (is_Exception e) eqn:He.
        -- assert (Hno : existsb is_sigint (ConsolePrompt prompt :: clearing w ++ events r)
                         = false).
           { rewrite app_comm_cons, existsb_app, Hclear.
             apply (safe_not_exited r Hsafe).
             rewrite Ho. intros E. injection E as ->. discriminate He. }
           destruct (Markup.render_error _ _) as [message|].
           ++ split; [exact Hw | now left].
           ++ destruct (IH asked w Hw) as [Hinst Hs].
              split; [exact Hinst|].
              apply (safe_after _ (s_run _)); [|exact Hs].
              rewrite existsb_app, Hno. reflexivity.
        -- split; [exact Hw|].
           destruct Hsafe as [Hno|[Hexit0 Hend]]; [left|right]; cbn.
           ++ rewrite existsb_app. cbn in Hclear. now rewrite Hclear.
           ++ rewrite Ho in Hexit0. injection Hexit0 as ->. split; [reflexivity|].
              now apply (ended_after (ConsolePrompt prompt :: clearing w)).
  - (* SIGINT at the prompt *)
    rewrite loop_sigint, deliver_sigint_installed by exact Hw.
    split; [exact Hw|]. right. split; [reflexivity|].
    now exists [ConsolePrompt prompt], [].
Qed.

(** The same for code that reads standard input. *)

Lemma process_lift {A} (m : M A) : handles_sigint m -> process_handles_sigint (lift m).
Proof. intros Hm stdin w Hw. exact (Hm w Hw). Qed.

Lemma process_pbind {A B} (m : P A) (k : A -> P B) :
  process_handles_sigint m -> (forall a, process_handles_sigint (k a)) ->
  process_handles_sigint (pbind m k).
Proof.
  intros Hm Hk stdin w Hw. destruct (Hm stdin w Hw) as [Hinst Hsafe]. unfold pbind.
  destruct (m stdin w) as [[[a|e] evs w'] stdin'] eqn:Hrun; cbn in *.
  - destruct (Hk a stdin' w' Hinst) as [Hinst' Hsafe']. split; [exact Hinst'|].
    apply safe_after; [|exact Hsafe'].
    now apply (safe_not_exited (mkRun (Return a) evs w')).
  - split; [exact Hinst | now apply (safe_raise (A:=A))].
Qed.

Lemma process_builtin_input text : process_handles_sigint (builtin_input text).
Proof.
  intros [|[s|] rest] w Hw; cbn [builtin_input p_run].
  - apply (handles_bind (emit (StdinPrompt text)) (fun _ => raise EOFError));
      [now apply handles_emit | intros ?; apply handles_raise | exact Hw].
  - apply (handles_bind (emit (StdinPrompt text)) (fun _ => ret s));
      [now apply handles_emit | intros ?; apply handles_ret | exact Hw].
  - apply (handles_bind (emit (StdinPrompt text)) (fun _ => deliver_sigint));
      [now apply handles_emit | intros ?; apply handles_deliver_sigint | exact Hw].
Qed.

Lemma process_offer_update checker : process_handles_sigint (offer_update checker).
Proof.
  unfold offer_update. apply process_pbind.
  - apply process_lift. auto with sigint.
  - intros [latest|]; [|apply process_lift; auto with sigint].
    destruct (PyStr.is_empty latest); [apply process_lift; auto with sigint|].
    apply process_pbind; [apply process_lift; auto with sigint | intros _].
    apply process_pbind; [apply process_builtin_input | intros answer].
    destruct (wants_update _); [|apply process_lift; auto with sigint].
    apply process_pbind; [|intros _; apply process_lift; auto with sigint].
    apply process_lift. apply handles_try_except.
    + apply handles_bind; [auto with sigint|]. intros []; auto with sigint.
    + intros e. auto with sigint.
Qed.

Lemma process_handle_interactive_mode g args context :
  process_handles_sigint
    (fun stdin w => session_process (handle_interactive_mode g args context stdin w)).
Proof.
  intros stdin w Hw. unfold handle_interactive_mode.
  erewrite session_bind_run by (apply console_print_renders; auto with markup).
  unfold session_process, after. cbn [s_run p_run world events outcome].
  destruct (loop_handles_sigint g args stdin
              (match context with None => [] | Some c => c end) w Hw) as [Hinst Hsafe].
  split; [exact Hinst|].
  apply (safe_after [_] (s_run _)); [reflexivity | exact Hsafe].
Qed.

Lemma process_eta {A} (p : Process A) :
  mkProcess (mkRun (outcome (p_run p)) (events (p_run p)) (world (p_run p))) (p_stdin p) = p.
Proof. now destruct p as [[o evs w] stdin]. Qed.

(** A silent step that returns, followed by [k]. *)
Lemma pbind_silent {A B} (m : M A) (k : A -> P B) (a : A) stdin w w' :
  m w = mkRun (Return a) [] w' ->
  pbind (lift m) k stdin w = k a stdin w'.
Proof.
  intros Hm. unfold pbind, lift. cbn [p_run p_stdin]. rewrite Hm.
  cbn [outcome events world app]. apply process_eta.
Qed.

(** What [main] does once the arguments are parsed and the handler is
    installed. *)
Lemma process_main_body g checker args :
  process_handles_sigint
    (offer_update checker ~;;
     match query args with
     | [] => fun stdin w => session_process (handle_interactive_mode g args None stdin w)
     | words =>
         lift (clear_new_area ;;;
               handle_search g (PyStr.join_with " " words) args None ;;;
               ret tt)
     end).
Proof.
  apply process_pbind; [apply process_offer_update | intros _].
  destruct (query args) as [|word words].
  - apply process_handle_interactive_mode.
  - apply process_lift. handles.
Qed.

(** What the handler of [main] does with [e]. *)
Lemma report_then_exit {A} (e : Exn) (w : World) :
  (report_error e ;;; @raise A (SystemExit 1)) w
  = match Markup.render_error (console w) (error_line e) with
    | None => mkRun (Raise (SystemExit 1)) (reported e) w
    | Some message => mkRun (Raise (MarkupError message)) [] w
    end.
Proof.
  unfold bind. rewrite report_error_run.
  destruct (Markup.render_error _ _); reflexivity.
Qed.

Lemma report_then_exit_no_sigint {A} (e : Exn) (w : World) :
  existsb is_sigint (events ((report_error e ;;; @raise A (SystemExit 1)) w)) = false.
Proof. rewrite report_then_exit. now destruct (Markup.render_error _ _). Qed.

(** [main] when [parse_arguments] is not bound: the [NameError] goes
    straight to the handler. *)
Lemma main_without_arguments g checker stdin w :
  g_parse_arguments g = None ->
  main g checker stdin w
  = mkProcess ((report_error (NameError "parse_arguments") ;;; raise (SystemExit 1)) w) stdin.
Proof.
  intros Hparse. unfold main, ptry_except, pbind, lift. rewrite Hparse.
  cbn [lookup_global raise p_run p_stdin outcome events world is_Exception app].
  now rewrite run_eta.
Qed.

(** [main] once the arguments are parsed: the handler is installed, and
    the rest runs inside the [try]. *)
Lemma main_parsed g checker args stdin w :
  g_parse_arguments g = Some args ->
  main g checker stdin w
  = ptry_except
      (offer_update checker ~;;
       match query args with
       | [] => fun stdin w => session_process (handle_interactive_mode g args None stdin w)
       | words =>
           lift (clear_new_area ;;;
                 handle_search g (PyStr.join_with " " words) args None ;;;
                 ret tt)
       end)
      (fun e => lift (report_error e ;;; raise (SystemExit 1)))
      stdin (mkWorld HandleInterrupt (terminal w) (console w)).
Proof.
  intros Hparse. unfold main, ptry_except. rewrite Hparse.
  rewrite (pbind_silent _ _ args stdin w w) by reflexivity.
  rewrite (pbind_silent _ _ tt stdin w (mkWorld HandleInterrupt (terminal w) (console w)))
    by reflexivity.
  reflexivity.
Qed.

(** Whatever the world [main] starts in, a SIGINT during its run ends it
    with [SystemExit(0)]: the handler is installed before [main] first
    waits for anything. *)
Lemma main_sigint_safe g checker stdin w :
  sigint_safe (p_run (main g checker stdin w)).
Proof.
  destruct (g_parse_arguments g) as [args|] eqn:Hparse.
  - rewrite (main_parsed g checker args stdin w Hparse).
    unfold ptry_except.
    destruct (process_main_body g checker args stdin
                (mkWorld HandleInterrupt (terminal w) (console w)) eq_refl) as [_ Hsafe].
    match type of Hsafe with sigint_safe (p_run ?p) =>
      destruct p as [[[a|e] evs w'] stdin'] end; cbn [p_run outcome world events] in *.
    + exact Hsafe.
    + destruct (is_Exception e) eqn:He; [|exact Hsafe].
      assert (Hno : existsb is_sigint evs = false).
      { apply (safe_not_exited _ Hsafe). cbn. intros E. injection E as ->. discriminate He. }
      left. unfold lift. cbn [p_run events].
      now rewrite existsb_app, Hno, report_then_exit_no_sigint.
  - rewrite (main_without_arguments g checker stdin w Hparse).
    left. apply report_then_exit_no_sigint.
Qed.





(** * Further properties *)

(** ** Events of a given kind *)

Lemma events_bind {A B} (m : M A) (k : A -> M B) (w : World) :
  events (bind m k w)
  = (events (m w)
       ++ match outcome (m w) with
          | Return a => events (k a (world (m w)))
          | Raise _ => []
          end)%list.
Proof.
  unfold bind. destruct (outcome (m w)); cbn; [reflexivity | now rewrite app_nil_r].
Qed.

Section Silent.

Variable p : Event -> bool.
Hypothesis p_sigint : p SigintReceived = false.
Hypothesis p_print : forall s, p (ConsolePrint s) = false.
Hypothesis p_clear : p ConsoleClear = false.
Hypothesis p_update : forall r, p (LiveUpdate r) = false.

Lemma silent_ret {A} (a : A) : silent p (ret a).
Proof. intros w. reflexivity. Qed.

Lemma silent_raise {A} (e : Exn) : silent p (@raise A e).
Proof. intros w. reflexivity. Qed.

Lemma silent_emit (e : Event) : p e = false -> silent p (emit e).
Proof. intros He w. cbn. now rewrite He. Qed.

Lemma silent_bind {A B} (m : M A) (k : A -> M B) :
  silent p m -> (forall a, silent p (k a)) -> silent p (bind m k).
Proof.
  intros Hm Hk w. rewrite events_bind, filter_app, Hm.
  destruct (outcome (m w)); [apply Hk | reflexivity].
Qed.

Lemma silent_console_print s : silent p (console_print s).
Proof.
  intros w. rewrite console_print_run.
  destruct (Markup.render_error _ _); cbn; now rewrite ?p_print.
Qed.

Lemma silent_live_update s : silent p (live_update s).
Proof.
  intros w. rewrite live_update_run.
  destruct (Markup.render_error _ _); cbn; now rewrite ?p_update.
Qed.

Lemma silent_deliver_sigint {A} : silent p (@deliver_sigint A).
Proof.
  intros w. destruct (sigint w) eqn:Hw.
  - rewrite deliver_sigint_default by exact Hw. cbn. now rewrite p_sigint.
  - rewrite deliver_sigint_installed by exact Hw. cbn. now rewrite p_sigint, p_print.
Qed.

Lemma silent_for_chunks {S : Type} (stream : Stream) (step : S -> string -> M S) :
  (forall acc chunk, silent p (step acc chunk)) ->
  forall acc, silent p (for_chunks stream step acc).
Proof.
  intros Hstep. induction stream as [|chunk rest IH|e|]; intros acc; cbn.
  - apply silent_ret.
  - apply silent_bind; [apply Hstep | exact IH].
  - apply silent_raise.
  - apply silent_deliver_sigint.
Qed.

Lemma silent_stream_step acc chunk : silent p (stream_step acc chunk).
Proof.
  unfold stream_step. apply silent_bind; [apply silent_live_update | intros _; apply silent_ret].
Qed.

Lemma silent_buffer_step acc chunk : silent p (buffer_step acc chunk).
Proof. apply silent_ret. Qed.

Lemma silent_clearing (w : World) : filter p (clearing w) = [].
Proof. rewrite clearing_events. cbn. now rewrite !p_print, p_clear. Qed.

End Silent.

(** ** The renderers under any binding of [perform_search] *)

(** What happens inside the [with] block of a renderer: nothing but the
    [NameError] when [perform_search] is unbound, else the request and the
    loop over what it answers. *)
Lemma block_run {S : Type} g call (step : S -> string -> M S) (acc : S) w :
  bind (call_perform_search g call) (fun stream => for_chunks stream step acc) w
  = match g_perform_search g with
    | Some search =>
        let r := for_chunks (search call) step acc w in
        mkRun (outcome r) (SearchRequest call :: events r) (world r)
    | None => mkRun (Raise (NameError "perform_search")) [] w
    end.
Proof.
  unfold call_perform_search. destruct (g_perform_search g); reflexivity.
Qed.

Lemma streaming_events g query args payload w :
  exists inside,
    events (handle_streaming_search g query args payload w)
    = (LiveStart (Rendered EmptyString) false :: inside ++ [LiveStop])%list
    /\ filter is_live_boundary inside = []
    /\ filter is_search_request inside
       = match g_perform_search g with
         | Some _ => [SearchRequest (search_call query args true payload)]
         | None => []
         end.
Proof.
  unfold handle_streaming_search, with_live.
  fold (search_call query args true payload). rewrite block_run.
  destruct (g_perform_search g) as [search|]; cbn.
  - exists (SearchRequest (search_call query args true payload)
              :: events (for_chunks (search (search_call query args true payload))
                                    stream_step EmptyString w)).
    split; [reflexivity|]. cbn. split.
    + apply silent_for_chunks; auto using silent_stream_step.
    + f_equal. apply silent_for_chunks; auto using silent_stream_step.
  - exists []. now repeat split.
Qed.

Lemma buffered_events g query args payload w :
  exists inside final,
    events (handle_no_stream_search g query args payload w)
    = (ConsolePrint "[cyan]About to clear screen in no_stream mode...[/cyan]"
         :: clearing w
         ++ LiveStart (Spinner "dots" "Searching...") true
         :: inside ++ LiveStop :: final)%list
    /\ filter is_live_boundary inside = []
    /\ filter is_search_request inside
       = match g_perform_search g with
         | Some _ => [SearchRequest (search_call query args false payload)]
         | None => []
         end
    /\ (final = [] \/ exists text, final = [ConsolePrint text]).
Proof.
  unfold handle_no_stream_search.
  fold (search_call query args false payload).
  erewrite bind_run by (apply console_print_renders; auto with markup).
  erewrite bind_run by apply clear_new_area_run.
  cbn [events]. rewrite events_bind. unfold with_live at 1 2 3. rewrite block_run.
  assert (Hfinal : forall (content : string) w',
             events ((console_print (label content) ;;; ret content) w') = []
             \/ exists text,
                  events ((console_print (label content) ;;; ret content) w')
                  = [ConsolePrint text]).
  { intros content w'. unfold bind. rewrite console_print_run.
    destruct (Markup.render_error _ _); cbn; eauto. }
  destruct (g_perform_search g) as [search|].
  - set (r := for_chunks (search (search_call query args false payload))
                         buffer_step [] w).
    exists (SearchRequest (search_call query args false payload) :: events r).
    exists (match outcome r with
            | Return buffer =>
                events ((console_print (label (PyStr.join buffer)) ;;;
                         ret (PyStr.join buffer)) (world r))
            | Raise _ => []
            end).
    cbn. repeat split.
    + destruct (outcome r); cbn; do 2 f_equal; rewrite <- !app_assoc; reflexivity.
    + apply silent_for_chunks; auto using silent_buffer_step.
    + f_equal. apply silent_for_chunks; auto using silent_buffer_step.
    + destruct (outcome r); [apply Hfinal | now left].
  - exists [], []. cbn. repeat split; auto.
Qed.

(** ** The display is never left open *)

(** X6. Whatever [perform_search] is bound to and however its stream ends
    (exhausted, an exception, SIGINT, or the name not bound at all), each
    renderer opens its live display once and closes it once before it
    returns or raises. *)
Theorem live_display_is_always_closed
    (g : Globals) (query : string) (args : Args) (payload : Payload) (w : World) :
  filter is_live_boundary (events (handle_streaming_search g query args payload w))
  = [LiveStart (Rendered EmptyString) false; LiveStop]
  /\ filter is_live_boundary (events (handle_no_stream_search g query args payload w))
     = [LiveStart (Spinner "dots" "Searching...") true; LiveStop].
Proof.
  split.
  - destruct (streaming_events g query args payload w) as (inside & -> & Hb & _).
    cbn. now rewrite filter_app, Hb.
  - destruct (buffered_events g query args payload w)
      as (inside & final & -> & Hb & _ & Hfinal).
    cbn. rewrite filter_app, silent_clearing by reflexivity.
    cbn. rewrite filter_app, Hb. cbn.
    destruct Hfinal as [->|[text ->]]; reflexivity.
Qed.

(** ** Which renderer, which request *)

(** [handle_search] once [os] and [_build_api_payload] are bound. *)
Lemma handle_search_bound g environ_get build query args context w :
  g_os_environ_get g = Some environ_get ->
  g_build_api_payload g = Some build ->
  handle_search g query args context w
  = if buffered_mode environ_get args
    then handle_no_stream_search g query args
           (request_payload build true query args context) w
    else handle_streaming_search g query args
           (request_payload build false query args context) w.
Proof.
  intros Hos Hbuild. unfold handle_search, buffered_mode. rewrite Hos, Hbuild.
  destruct (no_stream args); cbn [orb lookup_global].
  - rewrite (bind_ret true), (bind_ret build). reflexivity.
  - erewrite bind_run by reflexivity. cbn [app]. rewrite run_eta, (bind_ret build).
    now destruct (env_is _ _).
Qed.

(** X1. With the names bound, [handle_search] issues exactly one search
    request, whatever the stream does afterwards.  It carries the query,
    the key, the model and the citation flag of the arguments; it asks
    for streaming unless the [no_stream] flag is set or [OR_APP_NAME] is
    [Aider]; and its context is the context argument when that is a
    non-empty list, else the messages [_build_api_payload] put in (an
    empty list counts as no context). *)
Theorem handle_search_issues_one_request
    (g : Globals) (environ_get : string -> option string)
    (build : string -> string -> bool -> bool -> Payload)
    (search : SearchCall -> Stream)
    (query : string) (args : Args) (context : option Context) (w : World) :
  g_os_environ_get g = Some environ_get ->
  g_build_api_payload g = Some build ->
  g_perform_search g = Some search ->
  let buffered := buffered_mode environ_get args in
  filter is_search_request (events (handle_search g query args context w))
  = [ SearchRequest
        (mkSearchCall query (api_key args) (model args) (negb buffered) (citations args)
           (if truthy context then context
            else p_messages (build query (model args) (negb buffered) (citations args)))) ].
Proof.
  intros Hos Hbuild Hsearch buffered. subst buffered.
  rewrite (handle_search_bound g environ_get build query args context w Hos Hbuild).
  destruct (buffered_mode environ_get args).
  - destruct (buffered_events g query args (request_payload build true query args context) w)
      as (inside & final & -> & _ & Hr & Hfinal).
    rewrite Hsearch in Hr.
    cbn. rewrite filter_app, silent_clearing by reflexivity.
    cbn. rewrite filter_app, Hr. cbn.
    unfold search_call, request_payload.
    destruct Hfinal as [->|[text ->]]; destruct (truthy context); reflexivity.
  - destruct (streaming_events g query args (request_payload build false query args context) w)
      as (inside & -> & _ & Hr).
    rewrite Hsearch in Hr. cbn. rewrite filter_app, Hr. cbn.
    unfold search_call, request_payload. destruct (truthy context); reflexivity.
Qed.

Lemma handle_search_issues_one_request_witness :
  filter is_search_request
    (events (handle_search (sample_globals (stream_of ["Hello"] (Fails (TransportError "boom"))))
               "q" sample_args (Some [user_turn "q"]) sample_world))
  = [ SearchRequest (mkSearchCall "q" "key" "sonar" true false (Some [user_turn "q"])) ].
Proof.
  apply (handle_search_issues_one_request
           (sample_globals (stream_of ["Hello"] (Fails (TransportError "boom"))))
           (fun _ => None)
           (fun _ model stream show_citations => mkPayload model stream show_citations None)
           (fun _ => stream_of ["Hello"] (Fails (TransportError "boom")))
           "q" sample_args (Some [user_turn "q"]) sample_world);
    reflexivity.
Defined.



(** ** What the streaming display shows on the way *)

Lemma stream_decompose (stream : Stream) :
  stream = stream_of (chunks stream) (ending_of stream).
Proof.
  unfold stream_of. induction stream as [|chunk rest IH|e|]; cbn; congruence.
Qed.

Lemma ending_paints_nothing (stream : Stream) (acc : string) (w : World) :
  filter is_paint_event (events (for_chunks (ending_of stream) stream_step acc w)) = [].
Proof.
  induction stream as [|chunk rest IH|e|]; cbn [ending_of]; try exact IH; try reflexivity.
  now apply silent_deliver_sigint.
Qed.

Lemma paint_skips (ticks : list bool) (pre tail : list Event) (held : Renderable) :
  filter is_paint_event pre = [] ->
  paint ticks (pre ++ tail) held = paint ticks tail held.
Proof.
  induction pre as [|e pre IH]; [reflexivity|].
  destruct e; cbn; intros H; try discriminate H; now apply IH.
Qed.

Lemma firstn_length_app {A} (l l' : list A) : firstn (length l) (l ++ l') = l.
Proof. induction l as [|x l IH]; cbn; [reflexivity | now rewrite IH]. Qed.

Lemma partial_text_snoc (shown rest : list string) (f : string) :
  Rendered (label (PyStr.join shown ++ f))
  = partial_text ((shown ++ [f]) ++ rest) (length (shown ++ [f])).
Proof.
  assert (Hlen : length (shown ++ [f]) = S (length shown))
    by (rewrite length_app; cbn; lia).
  unfold partial_text. destruct (length (shown ++ [f])) eqn:E; [discriminate Hlen|].
  rewrite <- E, firstn_length_app, join_app. cbn. now rewrite append_empty_r.
Qed.

(** The frames painted while the fragments [later] arrive, the display
    holding what [shown] gave: each is the text after some number of
    fragments, and the last one is the text after all of them. *)
Lemma paint_updates (tail : list Event) :
  (forall ticks held, paint ticks tail held = [held]) ->
  forall later shown ticks,
    exists frames,
      paint ticks (updates_from (PyStr.join shown) later ++ tail)
            (partial_text (shown ++ later) (length shown))
      = (frames ++ [partial_text (shown ++ later) (length (shown ++ later))])%list
      /\ Forall (fun frame => exists k, k <= length (shown ++ later)
                                        /\ frame = partial_text (shown ++ later) k) frames.
Proof.
  intros Htail. induction later as [|f later IH]; intros shown ticks.
  - exists []. cbn [updates_from app]. rewrite Htail, app_nil_r. now split.
  - cbn [updates_from app paint].
    replace (shown ++ f :: later)%list with ((shown ++ [f]) ++ later)%list
      by now rewrite <- app_assoc.
    rewrite (partial_text_snoc shown later f).
    replace (PyStr.join shown ++ f) with (PyStr.join (shown ++ [f]))
      by (rewrite join_app; cbn; now rewrite append_empty_r).
    destruct ticks as [|[] ticks'].
    + destruct (IH (shown ++ [f])%list []) as (frames & -> & Hall). now exists frames.
    + destruct (IH (shown ++ [f])%list ticks') as (frames & -> & Hall).
      exists (partial_text ((shown ++ [f]) ++ later) (length (shown ++ [f])) :: frames).
      split; [reflexivity|]. constructor; [|exact Hall].
      eexists. split; [|reflexivity]. rewrite !length_app. lia.
    + destruct (IH (shown ++ [f])%list ticks') as (frames & -> & Hall). now exists frames.
Qed.

Lemma failed_update_bound (c : Console) (fragments : list string) :
  forall acc k message,
    failed_update c acc fragments = Some (k, message) -> k < length fragments.
Proof.
  induction fragments as [|f fs IH]; intros acc k message; cbn; [discriminate|].
  destruct (Markup.render_error _ _); [intros E; injection E as <- _; lia|].
  destruct (failed_update c (acc ++ f) fs) as [[k' message']|] eqn:E; [|discriminate].
  intros E'. injection E' as <- _. apply IH in E. lia.
Qed.

Lemma partial_text_firstn (fragments : list string) (n k : nat) :
  k <= n -> partial_text (firstn n fragments) k = partial_text fragments k.
Proof.
  intros Hk. unfold partial_text. destruct k; [reflexivity|].
  now rewrite firstn_firstn, Nat.min_l by exact Hk.
Qed.




(** ** Sessions *)

(** The three ways an iteration can go for a line. *)
Ltac line_cases user_input Hblank Hexit :=
  destruct (blank user_input) eqn:Hblank;
  [ rewrite loop_blank by exact Hblank
  | destruct (String.eqb_spec (PyStr.lower user_input) "exit") as [Hexit|Hexit];
    [ rewrite loop_exit by assumption
    | rewrite loop_submits by assumption ] ].

(** A session leaves the world as it found it. *)
Lemma loop_keeps_world g args stdin :
  forall context w, world (s_run (interactive_loop g args stdin context w)) = w.
Proof.
  induction stdin as [|[user_input|] rest IH]; intros context w.
  - now rewrite loop_eof.
  - line_cases user_input Hblank Hexit.
    + apply IH.
    + reflexivity.
    + cbv zeta.
      destruct (outcome (handle_search g user_input args _ w)) as [reply|e];
        [apply IH|].
      destruct (is_Exception e); [|reflexivity].
      destruct (Markup.render_error _ _); [reflexivity | apply IH].
  - rewrite loop_sigint. apply keeps_deliver_sigint.
Qed.

(** How a session can end, and what it has read by then. *)
Lemma loop_ends g args stdin context w :
  let s := interactive_loop g args stdin context w in
  exists consumed,
    stdin = (consumed ++ s_stdin s)%list
    /\ match s_outcome s with
       | Return _ =>
           exists before user_input,
             consumed = (before ++ [Line user_input])%list
             /\ In user_input (letter_cases "exit")
       | Raise e =>
           (e = EOFError /\ s_stdin s = [])
           \/ (exists failure message,
                 is_Exception failure = true
                 /\ Markup.render_error (console w) (error_line failure) = Some message
                 /\ e = MarkupError message)
           \/ is_Exception e = false
       end.
Proof.
  revert context w.
  induction stdin as [|[user_input|] rest IH]; intros context w; cbv zeta in *.
  - exists []. rewrite loop_eof. split; [reflexivity|]. left. now split.
  - line_cases user_input Hblank Hexit.
    + destruct (IH context w) as (consumed & Hin & Hend).
      exists (Line user_input :: consumed). split; [cbn; now f_equal|].
      change (s_outcome (after _ ?s)) with (s_outcome s).
      change (s_stdin (after _ ?s)) with (s_stdin s).
      destruct (s_outcome _) as [[]|e]; [|exact Hend].
      destruct Hend as (before & typed & -> & Htyped).
      now exists (Line user_input :: before), typed.
    + exists [Line user_input]. split; [reflexivity|].
      exists [], user_input. split; [reflexivity | now apply lower_is_exit].
    + cbv zeta.
      destruct (outcome (handle_search g user_input args _ w)) as [reply|e];
        [|destruct (is_Exception e) eqn:He;
          [destruct (Markup.render_error _ _) as [message|] eqn:Hreport|]].
      * destruct (IH (context ++ [user_turn user_input] ++ [assistant_turn reply])%list w)
          as (consumed & Hin & Hend).
        rewrite app_assoc in Hin, Hend.
        exists (Line user_input :: consumed). split; [cbn; now f_equal|].
        change (s_outcome (after _ ?s)) with (s_outcome s).
        change (s_stdin (after _ ?s)) with (s_stdin s).
        destruct (s_outcome _) as [[]|e]; [|exact Hend].
        destruct Hend as (before & typed & -> & Htyped).
        now exists (Line user_input :: before), typed.
      * exists [Line user_input]. split; [reflexivity|].
        right. left. now exists e, message.
      * destruct (IH (context ++ [user_turn user_input])%list w)
          as (consumed & Hin & Hend).
        exists (Line user_input :: consumed). split; [cbn; now f_equal|].
        change (s_outcome (after _ ?s)) with (s_outcome s).
        change (s_stdin (after _ ?s)) with (s_stdin s).
        destruct (s_outcome _) as [[]|e']; [|exact Hend].
        destruct Hend as (before & typed & -> & Htyped).
        now exists (Line user_input :: before), typed.
      * exists [Line user_input]. split; [reflexivity|]. now right; right.
  - exists [Sigint]. rewrite loop_sigint. split; [reflexivity|].
    unfold s_outcome. cbn [s_run outcome].
    destruct (sigint w) eqn:Hw;
      [rewrite deliver_sigint_default by exact Hw
      |rewrite deliver_sigint_installed by exact Hw];
      cbn; right; right; reflexivity.
Qed.


(** The search requests of a renderer: the one for its call, if
    [perform_search] is bound. *)
Lemma renderer_requests g query args payload w :
  filter is_search_request (events (handle_streaming_search g query args payload w))
  = match g_perform_search g with
    | Some _ => [SearchRequest (search_call query args true payload)]
    | None => []
    end
  /\ filter is_search_request (events (handle_no_stream_search g query args payload w))
     = match g_perform_search g with
       | Some _ => [SearchRequest (search_call query args false payload)]
       | None => []
       end.
Proof.
  split.
  - destruct (streaming_events g query args payload w) as (inside & -> & _ & Hr).
    cbn. now rewrite filter_app, Hr, app_nil_r.
  - destruct (buffered_events g query args payload w) as (inside & final & -> & _ & Hr & Hf).
    cbn. rewrite filter_app, silent_clearing by reflexivity.
    cbn. rewrite filter_app, Hr. cbn.
    destruct Hf as [->|[text ->]]; now rewrite app_nil_r.
Qed.

(** A request [handle_search] issues for a non-empty context carries the
    query and that context, whatever is bound. *)
Lemma handle_search_requests g query args turn turns w call :
  In (SearchRequest call) (events (handle_search g query args (Some (turn :: turns)) w)) ->
  sc_query call = query /\ sc_context call = Some (turn :: turns).
Proof.
  intros Hin.
  assert (Hreq : In (SearchRequest call)
                    (filter is_search_request
                       (events (handle_search g query args (Some (turn :: turns)) w))))
    by (apply filter_In; now split).
  clear Hin. revert Hreq. unfold handle_search.
  assert (Hrenderer : forall buffered build,
             In (SearchRequest call)
                (filter is_search_request
                   (events ((if buffered : bool
                             then handle_no_stream_search g query args
                                    (request_payload build buffered query args
                                       (Some (turn :: turns)))
                             else handle_streaming_search g query args
                                    (request_payload build buffered query args
                                       (Some (turn :: turns)))) w))) ->
             sc_query call = query /\ sc_context call = Some (turn :: turns)).
  { intros buffered build.
    destruct (renderer_requests g query args
                (request_payload build buffered query args (Some (turn :: turns))) w)
      as [Hs Hb].
    destruct buffered; [rewrite Hb | rewrite Hs];
      (destruct (g_perform_search g); cbn;
       [intros [E|[]]; injection E as <-; now split | intros []]). }
  destruct (no_stream args).
  - rewrite (bind_ret true). destruct (g_build_api_payload g) as [build|]; cbn [lookup_global].
    + rewrite (bind_ret build). apply (Hrenderer true build).
    + cbn. intros [].
  - destruct (g_os_environ_get g) as [environ_get|]; cbn [lookup_global].
    + erewrite bind_run by reflexivity. cbn [app events].
      destruct (g_build_api_payload g) as [build|]; cbn [lookup_global].
      * rewrite (bind_ret build). apply (Hrenderer (env_is _ _) build).
      * cbn. intros [].
    + cbn. intros [].
Qed.

Lemma exchanges_after_user (text : string) (turns : list Turn) :
  exchanges turns = true -> exchanges (user_turn text :: turns) = true.
Proof. destruct turns as [|[[] c] rest]; cbn; auto; discriminate. Qed.

Lemma no_request_before_search (w : World) (call : SearchCall) :
  ~ In (SearchRequest call) (ConsolePrompt prompt :: clearing w).
Proof.
  rewrite clearing_events. cbn. intuition discriminate.
Qed.

(** What a session adds to its context, and what its requests carried. *)
Lemma loop_history g args stdin :
  forall context w,
    exists added,
      s_context (interactive_loop g args stdin context w) = (context ++ added)%list
      /\ exchanges added = true
      /\ forall call,
           In (SearchRequest call) (s_events (interactive_loop g args stdin context w)) ->
           exists before later,
             added = (before ++ user_turn (sc_query call) :: later)%list
             /\ sc_context call
                = Some (context ++ before ++ [user_turn (sc_query call)])%list.
Proof.
  induction stdin as [|[user_input|] rest IH]; intros context w.
  - exists []. rewrite app_nil_r, loop_eof. repeat split. cbn. intuition discriminate.
  - line_cases user_input Hblank Hexit.
    + destruct (IH context w) as (added & Hctx & Hex & Hreq).
      exists added. repeat split; [exact Hctx | exact Hex|].
      intros call [E|[E|Hin]]; try discriminate E. now apply Hreq.
    + exists []. rewrite app_nil_r. repeat split. cbn. intuition discriminate.
    + cbv zeta.
      set (asked := (context ++ [user_turn user_input])%list).
      assert (Hasked : forall call,
                 In (SearchRequest call)
                    (events (handle_search g user_input args (Some asked) w)) ->
                 sc_query call = user_input /\ sc_context call = Some asked).
      { intros call. subst asked. destruct context as [|t ts]; cbn [app];
          apply handle_search_requests. }
      assert (Hfirst : forall call later,
                 In (SearchRequest call)
                    (ConsolePrompt prompt :: clearing w
                       ++ events (handle_search g user_input args (Some asked) w)) ->
                 exists before later',
                   (user_turn user_input :: later
                    = before ++ user_turn (sc_query call) :: later')%list
                   /\ sc_context call
                      = Some (context ++ before ++ [user_turn (sc_query call)])%list).
      { intros call later Hin. rewrite app_comm_cons in Hin.
        apply in_app_or in Hin as [Hin|Hin];
          [now apply no_request_before_search in Hin|].
        destruct (Hasked call Hin) as [-> ->]. now exists [], later. }
      destruct (outcome (handle_search g user_input args (Some asked) w)) as [reply|e];
        [|destruct (is_Exception e) eqn:He;
          [destruct (Markup.render_error _ _) as [message|]|]].
      * destruct (IH (asked ++ [assistant_turn reply])%list w) as (added & Hctx & Hex & Hreq).
        exists (user_turn user_input :: assistant_turn reply :: added).
        split; [|split; [exact Hex|]].
        -- change (s_context (after _ ?s)) with (s_context s).
           rewrite Hctx. subst asked. now rewrite <- !app_assoc.
        -- intros call Hin. change (s_events (after ?evs ?s)) with (evs ++ s_events s)%list in Hin.
           apply in_app_or in Hin as [Hin|Hin]; [now apply Hfirst|].
           destruct (Hreq call Hin) as (before & later & -> & Hc).
           exists (user_turn user_input :: assistant_turn reply :: before), later.
           split; [reflexivity|]. rewrite Hc. subst asked. now rewrite <- !app_assoc.
      * exists [user_turn user_input]. split; [reflexivity | split; [reflexivity|]].
        intros call Hin. now apply Hfirst.
      * destruct (IH asked w) as (added & Hctx & Hex & Hreq).
        exists (user_turn user_input :: added).
        split; [|split; [now apply exchanges_after_user|]].
        -- change (s_context (after _ ?s)) with (s_context s).
           rewrite Hctx. subst asked. now rewrite <- !app_assoc.
        -- intros call Hin. change (s_events (after ?evs ?s)) with (evs ++ s_events s)%list in Hin.
           apply in_app_or in Hin as [Hin|Hin].
           ++ apply in_app_or in Hin as [Hin|Hin]; [now apply Hfirst|].
              cbn in Hin. intuition discriminate.
           ++ destruct (Hreq call Hin) as (before & later & -> & Hc).
              exists (user_turn user_input :: before), later.
              split; [reflexivity|]. rewrite Hc. subst asked. now rewrite <- !app_assoc.
      * exists [user_turn user_input]. split; [reflexivity | split; [reflexivity|]].
        intros call Hin. now apply Hfirst.
  - exists []. rewrite app_nil_r, loop_sigint. repeat split.
    intros call. unfold s_events. cbn [s_run events].
    destruct (sigint w) eqn:Hw.
    + rewrite deliver_sigint_default by exact Hw. cbn. intuition discriminate.
    + rewrite deliver_sigint_installed by exact Hw. cbn. intuition discriminate.
Qed.

(** X5. A session never rewrites its context: whatever the input and
    however the searches end, the context it leaves is the one it was given
    followed by user Turns, each of them followed by at most one assistant
    Turn.  No system Turn is added, and no assistant Turn without the user
    Turn of its query just before it. *)
Theorem context_grows_by_exchanges
    (g : Globals) (args : Args) (stdin : list Input) (context : Context) (w : World) :
  exists added,
    s_context (interactive_loop g args stdin context w) = (context ++ added)%list
    /\ exchanges added = true.
Proof.
  destruct (loop_history g args stdin context w) as (added & Hctx & Hex & _).
  now exists added.
Qed.

(** X7. Every search request of a session carries the conversation so far:
    its context is the context the session was given, the Turns added
    before it, and last the user Turn of the very query it asks; and that
    list is a prefix of the context the session leaves. *)
Theorem requests_carry_the_conversation
    (g : Globals) (args : Args) (stdin : list Input) (context : Context) (w : World)
    (call : SearchCall) :
  let s := interactive_loop g args stdin context w in
  In (SearchRequest call) (s_events s) ->
  exists before later,
    sc_context call = Some (context ++ before ++ [user_turn (sc_query call)])%list
    /\ s_context s = (context ++ before ++ user_turn (sc_query call) :: later)%list.
Proof.
  intros s Hin. subst s.
  destruct (loop_history g args stdin context w) as (added & Hctx & _ & Hreq).
  destruct (Hreq call Hin) as (before & later & -> & Hc).
  exists before, later. now split.
Qed.

Lemma requests_carry_the_conversation_witness :
  let g := sample_globals (stream_of ["Hello"] Exhausted) in
  let call := mkSearchCall "more" "key" "sonar" true false
                (Some [user_turn "hi"; assistant_turn "Hello"; user_turn "more"]) in
  exists before later,
    sc_context call = Some ([] ++ before ++ [user_turn (sc_query call)])%list
    /\ s_context (interactive_loop g sample_args [Line "hi"; Line "more"; Line "exit"] []
                    sample_world)
       = ([] ++ before ++ user_turn (sc_query call) :: later)%list.
Proof.
  intros g call.
  apply (requests_carry_the_conversation g sample_args
           [Line "hi"; Line "more"; Line "exit"] [] sample_world call).
  vm_compute. tauto.
Defined.

(** X8. Blank lines change nothing but what is shown: a session on an
    input ends in the same way and with the same context as on that input
    without its empty and whitespace-only lines, and leaves unread the
    same lines, blank ones apart. *)
Theorem blank_lines_are_ignored
    (g : Globals) (args : Args) (stdin : list Input) (context : Context) (w : World) :
  let s := interactive_loop g args stdin context w in
  let s' := interactive_loop g args (filter not_blank_line stdin) context w in
  s_outcome s' = s_outcome s
  /\ s_context s' = s_context s
  /\ s_stdin s' = filter not_blank_line (s_stdin s).
Proof.
  revert context w.
  induction stdin as [|[user_input|] rest IH]; intros context w; cbv zeta in *.
  - now repeat split.
  - cbn [filter not_blank_line].
    destruct (blank user_input) eqn:Hblank; cbn [negb].
    + rewrite loop_blank by exact Hblank. apply IH.
    + destruct (String.eqb_spec (PyStr.lower user_input) "exit") as [Hexit|Hexit].
      * rewrite !loop_exit by assumption. now repeat split.
      * rewrite !loop_submits by assumption. cbv zeta.
        destruct (outcome (handle_search g user_input args _ w)) as [reply|e];
          [apply IH | destruct (is_Exception e); [|now repeat split]].
        destruct (Markup.render_error _ _); [now repeat split | apply IH].
  - now repeat split.
Qed.

Lemma exit_is_stripped (s : string) :
  In s (letter_cases "exit") -> PyStr.strip s = s.
Proof.
  intros H. vm_compute in H.
  repeat (destruct H as [H|H]; [subst s; reflexivity|]). contradiction.
Qed.

(** X9. [exit] is recognised only when it is the whole line: a line that
    is [exit] with whitespace before or after it does not end the session
    but is submitted as a query, whitespace included. *)
Theorem padded_exit_is_a_query
    (g : Globals) (args : Args) (user_input : string) (rest : list Input)
    (context : Context) (w : World) :
  In (PyStr.strip user_input) (letter_cases "exit") ->
  PyStr.strip user_input <> user_input ->
  let asked := (context ++ [user_turn user_input])%list in
  let r := handle_search g user_input args (Some asked) w in
  let shown := (ConsolePrompt prompt :: clearing w ++ events r)%list in
  interactive_loop g args (Line user_input :: rest) context w
  = match outcome r with
    | Return reply =>
        after shown
              (interactive_loop g args rest (asked ++ [assistant_turn reply])%list w)
    | Raise e =>
        if is_Exception e
        then match Markup.render_error (console w) (error_line e) with
             | None => after (shown ++ reported e)%list (interactive_loop g args rest asked w)
             | Some message =>
                 mkSession (mkRun (Raise (MarkupError message)) shown w) asked rest
             end
        else mkSession (mkRun (Raise e) shown w) asked rest
    end.
Proof.
  intros Hexit Hpadded. apply loop_submits.
  - unfold blank. apply exit_not_blank in Hexit. unfold blank in Hexit.
    destruct (PyStr.strip user_input) eqn:E; [|reflexivity].
    vm_compute in Hexit. discriminate Hexit.
  - intros Hlower. apply lower_is_exit in Hlower.
    now apply Hpadded, exit_is_stripped.
Qed.

Lemma padded_exit_is_a_query_witness :
  s_context (interactive_loop (sample_globals (stream_of ["Hello"] Exhausted)) sample_args
               [Line " exit"; Line "exit"] [] sample_world)
  = [user_turn " exit"; assistant_turn "Hello"].
Proof.
  rewrite (padded_exit_is_a_query (sample_globals (stream_of ["Hello"] Exhausted))
             sample_args " exit" [Line "exit"] [] sample_world).
  - reflexivity.
  - vm_compute. tauto.
  - discriminate.
Defined.


(** ** The entry point *)

Lemma pbind_quiet {A B} (m : P A) (k : A -> P B) (a : A) stdin stdin' w w' :
  m stdin w = mkProcess (mkRun (Return a) [] w') stdin' ->
  pbind m k stdin w = k a stdin' w'.
Proof.
  intros Hm. unfold pbind. rewrite Hm. cbn [p_run p_stdin outcome events world app].
  apply process_eta.
Qed.

Lemma pbind_run {A B} (m : P A) (k : A -> P B) (a : A) (evs : list Event)
    stdin stdin' w w' :
  m stdin w = mkProcess (mkRun (Return a) evs w') stdin' ->
  pbind m k stdin w
  = mkProcess (mkRun (outcome (p_run (k a stdin' w')))
                     (evs ++ events (p_run (k a stdin' w')))
                     (world (p_run (k a stdin' w'))))
              (p_stdin (k a stdin' w')).
Proof. intros Hm. unfold pbind. now rewrite Hm. Qed.

Lemma pbind_raise {A B} (m : P A) (k : A -> P B) (e : Exn) (evs : list Event)
    stdin stdin' w w' :
  m stdin w = mkProcess (mkRun (Raise e) evs w') stdin' ->
  pbind m k stdin w = mkProcess (mkRun (Raise e) evs w') stdin'.
Proof. intros Hm. unfold pbind. now rewrite Hm. Qed.

Lemma builtin_input_line (text s : string) (rest : list Input) (w : World) :
  builtin_input text (Line s :: rest) w
  = mkProcess (mkRun (Return s) [StdinPrompt text] w) rest.
Proof. reflexivity. Qed.

Lemma builtin_input_eof (text : string) (w : World) :
  builtin_input text [] w = mkProcess (mkRun (Raise EOFError) [StdinPrompt text] w) [].
Proof. reflexivity. Qed.

Lemma process_keeps_lift {A} (m : M A) : keeps_world m -> process_keeps_world (lift m).
Proof. intros Hm stdin w. apply Hm. Qed.

Lemma process_keeps_pbind {A B} (m : P A) (k : A -> P B) :
  process_keeps_world m -> (forall a, process_keeps_world (k a)) ->
  process_keeps_world (pbind m k).
Proof.
  intros Hm Hk stdin w. unfold pbind. specialize (Hm stdin w).
  destruct (m stdin w) as [[[a|e] evs w'] stdin']; cbn in *; subst; [apply Hk | reflexivity].
Qed.

Lemma process_keeps_builtin_input text : process_keeps_world (builtin_input text).
Proof.
  intros [|[s|] rest] w; cbn [builtin_input p_run].
  - reflexivity.
  - reflexivity.
  - apply (keeps_bind (emit (StdinPrompt text)) (fun _ => deliver_sigint)); auto with keeps.
Qed.

Lemma keeps_try_except {A} (body : M A) (handler : Exn -> M A) :
  keeps_world body -> (forall e, keeps_world (handler e)) ->
  keeps_world (try_except body handler).
Proof.
  intros Hb Hh w. unfold try_except. specialize (Hb w).
  destruct (body w) as [[a|e] evs w']; cbn in *; subst; [reflexivity|].
  destruct (is_Exception e); [apply Hh | reflexivity].
Qed.

Lemma keeps_of_outcome {A} (o : Outcome A) : keeps_world (of_outcome o).
Proof. destruct o; [apply keeps_ret | apply keeps_raise]. Qed.

Lemma process_keeps_offer_update checker : process_keeps_world (offer_update checker).
Proof.
  unfold offer_update. apply process_keeps_pbind.
  - apply process_keeps_lift, keeps_of_outcome.
  - intros [latest|]; [|apply process_keeps_lift; auto with keeps].
    destruct (PyStr.is_empty latest); [apply process_keeps_lift; auto with keeps|].
    apply process_keeps_pbind; [apply process_keeps_lift; auto with keeps | intros _].
    apply process_keeps_pbind; [apply process_keeps_builtin_input | intros answer].
    destruct (wants_update _); [|apply process_keeps_lift; auto with keeps].
    apply process_keeps_pbind; [|intros _; apply process_keeps_lift; auto with keeps].
    apply process_keeps_lift, keeps_try_except.
    + apply keeps_bind; [apply keeps_of_outcome|]. intros []; auto with keeps.
    + intros e. auto with keeps.
Qed.

Lemma process_keeps_handle_interactive_mode g args context :
  process_keeps_world
    (fun stdin w => session_process (handle_interactive_mode g args context stdin w)).
Proof.
  intros stdin w. unfold handle_interactive_mode.
  erewrite session_bind_run by (apply console_print_renders; auto with markup).
  apply loop_keeps_world.
Qed.

(** After the handler is installed nothing in [main] changes the world. *)
Lemma process_keeps_main_body g checker args :
  process_keeps_world
    (offer_update checker ~;;
     match query args with
     | [] => fun stdin w => session_process (handle_interactive_mode g args None stdin w)
     | words =>
         lift (clear_new_area ;;;
               handle_search g (PyStr.join_with " " words) args None ;;;
               ret tt)
     end).
Proof.
  apply process_keeps_pbind; [apply process_keeps_offer_update | intros _].
  destruct (query args) as [|word words].
  - apply process_keeps_handle_interactive_mode.
  - apply process_keeps_lift.
    apply keeps_bind; [apply keeps_clear_new_area | intros _].
    apply keeps_bind; [apply keeps_handle_search | intros _; apply keeps_ret].
Qed.

(** The [try] of [main] around a body that leaves the world as it is: what
    the body returns or raises outside class [Exception] is what [main]
    ends with; an exception of class [Exception] is reported and turned
    into [SystemExit(1)], unless its error line does not render. *)
Lemma main_handler_run (body : P unit) (stdin : list Input) (w : World) :
  world (p_run (body stdin w)) = w ->
  ptry_except body (fun e => lift (report_error e ;;; raise (SystemExit 1))) stdin w
  = mkProcess
      match outcome (p_run (body stdin w)) with
      | Return _ => p_run (body stdin w)
      | Raise e =>
          if is_Exception e
          then match Markup.render_error (console w) (error_line e) with
               | None =>
                   mkRun (Raise (SystemExit 1))
                         (events (p_run (body stdin w)) ++ reported e) w
               | Some message =>
                   mkRun (Raise (MarkupError message)) (events (p_run (body stdin w))) w
               end
          else p_run (body stdin w)
      end
      (p_stdin (body stdin w)).
Proof.
  intros Hw. unfold ptry_except.
  destruct (body stdin w) as [[[a|e] evs w'] stdin']; cbn in Hw; subst w';
    cbn [p_run p_stdin outcome events world]; [reflexivity|].
  destruct (is_Exception e); [|reflexivity].
  unfold lift. cbn [p_run p_stdin]. rewrite report_then_exit.
  destruct (Markup.render_error _ _); cbn [outcome events world];
    [now rewrite app_nil_r | reflexivity].
Qed.



(** No update on offer: nothing is shown and nothing is read. *)
Lemma offer_update_none checker stdin w :
  check_and_notify checker = Return None ->
  offer_update checker stdin w = mkProcess (mkRun (Return tt) [] w) stdin.
Proof.
  intros Hcheck. unfold offer_update. rewrite Hcheck.
  now rewrite (pbind_silent _ _ None stdin w w) by reflexivity.
Qed.

(** [main] up to the point where it chooses its mode, no update being on
    offer. *)
Lemma main_without_update g checker args stdin w :
  g_parse_arguments g = Some args ->
  check_and_notify checker = Return None ->
  main g checker stdin w
  = ptry_except
      (match query args with
       | [] => fun stdin w => session_process (handle_interactive_mode g args None stdin w)
       | words =>
           lift (clear_new_area ;;;
                 handle_search g (PyStr.join_with " " words) args None ;;;
                 ret tt)
       end)
      (fun e => lift (report_error e ;;; raise (SystemExit 1)))
      stdin (mkWorld HandleInterrupt (terminal w) (console w)).
Proof.
  intros Hparse Hcheck. rewrite (main_parsed g checker args stdin w Hparse).
  unfold ptry_except.
  rewrite (pbind_quiet _ _ tt stdin stdin _ (mkWorld HandleInterrupt (terminal w) (console w)))
    by now apply offer_update_none.
  reflexivity.
Qed.





(** ** The update offer *)



(** ** A failure in buffered mode *)

(** X14. In buffered mode the fragments received before a failure are
    lost: the renderer raises the exception of the stream, and what it has
    shown by then (banner, screen clearing, the spinner come and gone) does
    not depend on the fragments. *)
Theorem buffered_failure_shows_nothing
    (g : Globals) (search : SearchCall -> Stream) (query : string) (args : Args)
    (payload : Payload) (fragments : list string) (e : Exn) (w : World) :
  g_perform_search g = Some search ->
  search (search_call query args false payload) = stream_of fragments (Fails e) ->
  handle_no_stream_search g query args payload w
  = mkRun (Raise e)
          (ConsolePrint "[cyan]About to clear screen in no_stream mode...[/cyan]"
             :: clearing w
             ++ [ LiveStart (Spinner "dots" "Searching...") true;
                  SearchRequest (search_call query args false payload);
                  LiveStop ])%list
          w.
Proof.
  intros Hg Hs.
  now rewrite (handle_no_stream_search_run g search query args payload fragments
                 (Fails e) w Hg Hs).
Qed.

Lemma buffered_failure_shows_nothing_witness :
  handle_no_stream_search
    (sample_globals (stream_of ["Hello"; " World"] (Fails (TransportError "boom"))))
    "q" sample_args sample_payload sample_world
  = mkRun (Raise (TransportError "boom"))
          (ConsolePrint "[cyan]About to clear screen in no_stream mode...[/cyan]"
             :: clearing sample_world
             ++ [ LiveStart (Spinner "dots" "Searching...") true;
                  SearchRequest (search_call "q" sample_args false sample_payload);
                  LiveStop ])%list
          sample_world.
Proof.
  apply (buffered_failure_shows_nothing
           (sample_globals (stream_of ["Hello"; " World"] (Fails (TransportError "boom"))))
           (fun _ => stream_of ["Hello"; " World"] (Fails (TransportError "boom")))
           "q" sample_args sample_payload ["Hello"; " World"] (TransportError "boom")
           sample_world);
    reflexivity.
Defined.
